(** * TrajectoryLmdbDataset: sharded LMDB dataset, index resolution and collation

  A shallow embedding of [ocpmodels/datasets/trajectory_lmdb.py]: the
  constructor that assigns LMDB files to ranks and builds the cumulative
  key-length table, [__getitem__] with its bisect-based resolution of a
  global index, [close_db], and [data_list_collater].

  Python integers are [Z]; lists are [list]; objects whose attributes the
  code assigns are attribute dictionaries ([gmap string attr]); exceptions
  are values of [exn] carried by a state-and-error monad whose state holds
  the LMDB handles currently open and the lines printed so far. *)

From Stdlib Require Import ZArith List Lia.
From stdpp Require Import base decidable option numbers list gmap strings pretty.
From Equations Require Import Equations.

Local Open Scope Z_scope.

(** ** Exceptions and results *)

Inductive exn : Type :=
| AssertionError
| ZeroDivisionError
| ValueError
| IndexError
| TypeError
| AttributeError
| NotImplementedError
| UnpicklingError
| LmdbError
| OtherError (tag : string).

Definition result (A : Type) : Type := exn + A.

Definition ok {A} (a : A) : result A := inr a.
Definition raise {A} (e : exn) : result A := inl e.

#[export] Instance result_ret : MRet result := λ A a, inr a.

#[export] Instance result_bind : MBind result := λ A B k r,
  match r with
  | inl e => inl e
  | inr a => k a
  end.

(** ** Python built-ins used by the module *)

Module Py.

(** [len(l)] *)
Definition len {A} (l : list A) : Z := Z.of_nat (length l).

(** [l[i]] on a list: a negative index counts from the end, anything
    outside the list raises [IndexError]. *)
Definition index {A} (l : list A) (i : Z) : result A :=
  let j := if decide (i < 0) then i + len l else i in
  if decide (0 ≤ j < len l) then
    match l !! Z.to_nat j with
    | Some v => ok v
    | None => raise IndexError
    end
  else raise IndexError.

(** [a % b] on integers: floored remainder, [ZeroDivisionError] on zero. *)
Definition mod_ (a b : Z) : result Z :=
  if decide (b = 0) then raise ZeroDivisionError else ok (a `mod` b).

(** Number of elements of [range(start, stop, step)], [step ≠ 0]. *)
Definition range_len (start stop step : Z) : Z :=
  if decide (0 < step) then
    if decide (start < stop) then (stop - start - 1) `div` step + 1 else 0
  else
    if decide (stop < start) then (start - stop - 1) `div` (- step) + 1 else 0.

(** [list(range(start, stop, step))] *)
Definition range (start stop step : Z) : result (list Z) :=
  if decide (step = 0) then raise ValueError
  else ok ((λ i, start + i * step) <$> seqZ 0 (range_len start stop step)).

(** Clamping of slice bounds, as [slice.indices] does it. *)
Definition slice_bound (n step i : Z) : Z :=
  if decide (i < 0) then
    let i' := i + n in
    if decide (i' < 0) then (if decide (step < 0) then -1 else 0) else i'
  else
    if decide (n ≤ i) then (if decide (step < 0) then n - 1 else n) else i.

(** [l[start:stop:step]] *)
Definition slice {A} (l : list A) (start stop step : Z) : result (list A) :=
  if decide (step = 0) then raise ValueError
  else
    let s := slice_bound (len l) step start in
    let e := slice_bound (len l) step stop in
    ok (omap (λ i, l !! Z.to_nat (s + i * step)) (seqZ 0 (range_len s e step))).

(** [l[start:]] *)
Definition slice_from {A} (l : list A) (start : Z) : list A :=
  let s := slice_bound (len l) 1 start in
  omap (λ i, l !! Z.to_nat (s + i)) (seqZ 0 (range_len s (len l) 1)).

(** [sum(l)] on a list of integers *)
Definition sum (l : list Z) : Z := foldl Z.add 0 l.

(** Two's-complement reduction to a signed 64-bit integer. *)
Definition wrap64 (z : Z) : Z := (z + 2 ^ 63) `mod` 2 ^ 64 - 2 ^ 63.

(** [np.cumsum(l).tolist()] for a list of integers: running sums in an
    [int64] accumulator. *)
Fixpoint cumsum_from (acc : Z) (l : list Z) : list Z :=
  match l with
  | [] => []
  | x :: l' => let acc' := wrap64 (acc + x) in acc' :: cumsum_from acc' l'
  end.

Definition cumsum (l : list Z) : list Z := cumsum_from 0 l.

(** [bisect.bisect_right(a, x, lo, hi)]: the loop of the standard library,
    [a[mid]] read with list indexing. *)
Equations? bisect_right (a : list Z) (x lo hi : Z) : result Z
  by wf (Z.to_nat (hi - lo)) lt :=
  bisect_right a x lo hi with decide (lo < hi) => {
    | right _ := ok lo
    | left _ with index a ((lo + hi) `div` 2) => {
        | inl e := raise e
        | inr v with decide (x < v) => {
            | left _ := bisect_right a x lo ((lo + hi) `div` 2)
            | right _ := bisect_right a x ((lo + hi) `div` 2 + 1) hi } } }.
Proof.
  all: assert (lo ≤ (lo + hi) `div` 2 < hi)
    by (split; [apply Z.div_le_lower_bound | apply Z.div_lt_upper_bound]; lia);
    lia.
Qed.

(** [bisect.bisect(a, x)] *)
Definition bisect (a : list Z) (x : Z) : result Z :=
  bisect_right a x 0 (len a).

(** [f"{z}"] for an integer *)
Definition str (z : Z) : string := pretty z.

End Py.

(** ** Objects *)

(** Values held by attributes of a data object. *)
Inductive attr : Type :=
| AInt (z : Z)
| AStr (s : string)
| AVec (v : list Z)
| AMat (rows : list (list Z)).

(** What [pickle.loads] (or a transform) may hand back: an integer, an
    object with assignable attributes (its attribute dictionary), or any
    other object: one that is no integer and takes no attribute. *)
Inductive pyobj : Type :=
| PyInt (z : Z)
| PyData (d : gmap string attr)
| PyOther.

(** An open LMDB environment: its handle and the (read-only) database. *)
Record env : Type := { env_handle : nat; env_db : gmap string string }.

(** ** Ambient process state and external collaborators *)

Record ambient : Type := {
  (* distutils.get_world_size() *)
  world_size : Z;
  (* distutils.get_rank() *)
  rank : Z;
  (* sorted(Path(src).glob("*.lmdb")) *)
  sorted_glob : string → list string;
  (* the LMDB files on disk, by path *)
  lmdb_files : gmap string (gmap string string);
  (* pickle.loads on a byte string *)
  pickle_loads : string → result pyobj;
  (* Batch.from_data_list *)
  from_data_list : list (gmap string attr) → result (gmap string attr);
  (* reading data.edge_index *)
  edge_index : gmap string attr → result (list (list Z))
}.

(** ** The monad: open handles, printed lines, exceptions *)

Record world : Type := {
  open_handles : gset nat;
  next_handle : nat;
  stdout : list string
}.

Definition M (A : Type) : Type := world → result A * world.

#[export] Instance M_ret : MRet M := λ A a σ, (ok a, σ).

#[export] Instance M_bind : MBind M := λ A B k m σ,
  match m σ with
  | (inl e, σ') => (inl e, σ')
  | (inr a, σ') => k a σ'
  end.

Definition throw {A} (e : exn) : M A := λ σ, (inl e, σ).

Definition lift {A} (r : result A) : M A := λ σ, (r, σ).

(** [try: body except E: handler], [handles e] telling whether the
    except clause matches. *)
Definition try_except {A} (body : M A) (handles : exn → bool) (handler : M A) : M A :=
  λ σ, match body σ with
       | (inl e, σ') => if handles e then handler σ' else (inl e, σ')
       | (inr a, σ') => (inr a, σ')
       end.

(** [for x in l: s = body(x, s)] *)
Fixpoint for_each {A S} (body : A → S → M S) (l : list A) (s : S) : M S :=
  match l with
  | [] => mret s
  | x :: l' => s' ← body x s; for_each body l' s'
  end.

Definition print (line : string) : M unit := λ σ,
  (ok tt, {| open_handles := open_handles σ;
             next_handle := next_handle σ;
             stdout := stdout σ ++ [line] |}).

(** ** LMDB *)

(** [lmdb.open(path, readonly=True, ...)] *)
Definition lmdb_open (E : ambient) (path : string) : M env := λ σ,
  match lmdb_files E !! path with
  | None => (inl LmdbError, σ)
  | Some db =>
      (ok {| env_handle := next_handle σ; env_db := db |},
       {| open_handles := {[next_handle σ]} ∪ open_handles σ;
          next_handle := S (next_handle σ);
          stdout := stdout σ |})
  end.

(** [env.begin().get(key)]: [None] when the key is absent; a closed
    environment cannot begin a transaction. *)
Definition env_begin (e : env) : M unit := λ σ,
  if decide (env_handle e ∈ open_handles σ) then (ok tt, σ) else (inl LmdbError, σ).

Definition txn_get (e : env) (key : string) : option string := env_db e !! key.

(** [env.close()] *)
Definition env_close (e : env) : M unit := λ σ,
  (ok tt, {| open_handles := open_handles σ ∖ {[env_handle e]};
             next_handle := next_handle σ;
             stdout := stdout σ |}).

(** [pickle.loads(b)] where [b] may be [None] *)
Definition loads (E : ambient) (b : option string) : result pyobj :=
  match b with
  | None => raise TypeError
  | Some s => pickle_loads E s
  end.

(** ** TrajectoryLmdbDataset *)

Record TrajectoryLmdbDataset : Type := {
  config_src : string;
  db_paths : list string;
  _keys : list (list Z);
  envs : list env;
  _keylens : list Z;
  _keylen_cumulative : list Z;
  num_samples : Z;
  transform : option (pyobj → result pyobj)
}.

(** [connect_db] *)
Definition connect_db (E : ambient) (lmdb_path : string) : M env :=
  lmdb_open E lmdb_path.

(** [pickle.loads(self.envs[-1].begin().get("length".encode("ascii")))] *)
Definition read_length (E : ambient) (envs : list env) : M pyobj :=
  e ← lift (Py.index envs (-1));
  _ ← env_begin e;
  lift (loads E (txn_get e "length")).

(** [list(range(length))] *)
Definition full_keys (length : pyobj) : result (list Z) :=
  match length with
  | PyInt n => Py.range 0 n 1
  | _ => raise TypeError
  end.

(** [length -= length % world_size; list(range(rank, length, world_size))] *)
Definition shared_keys (world_size rank : Z) (length : pyobj) : result (list Z) :=
  match length with
  | PyInt n =>
      r ← Py.mod_ n world_size;
      Py.range rank (n - r) world_size
  | _ => raise TypeError
  end.

(** Body shared by the two loops of [__init__]: open the file, append the
    handle to [self.envs], read the length, append the key list to
    [self._keys]. *)
Definition open_db (E : ambient) (keys_of : pyobj → result (list Z))
    (db_path : string) (st : list (list Z) * list env) : M (list (list Z) * list env) :=
  e ← connect_db E db_path;
  let envs := st.2 ++ [e] in
  length ← read_length E envs;
  ks ← lift (keys_of length);
  mret (st.1 ++ [ks], envs).

(** Lines 47-49 of [__init__]: the files this rank reads alone and the
    files shared by all ranks. *)
Definition partition_paths (world_size rank : Z) (db_paths : list string)
    : result (list string * list string) :=
  r ← Py.mod_ (Py.len db_paths) world_size;
  let num_full_dbs := Py.len db_paths - r in
  full_db_paths ← Py.slice db_paths rank num_full_dbs world_size;
  let shared_db_paths := Py.slice_from db_paths num_full_dbs in
  mret (full_db_paths, shared_db_paths).

Definition __init__ (E : ambient) (src : string)
    (transform : option (pyobj → result pyobj)) : M TrajectoryLmdbDataset :=
  let world_size := world_size E in
  let rank := rank E in
  let db_paths := sorted_glob E src in
  if decide (Py.len db_paths > 0) then
    '(full_db_paths, shared_db_paths) ← lift (partition_paths world_size rank db_paths);
    st ← for_each (open_db E full_keys) full_db_paths ([], []);
    st ← for_each (open_db E (shared_keys world_size rank)) shared_db_paths st;
    let keylens := Py.len <$> st.1 in
    mret {| config_src := src;
            db_paths := full_db_paths ++ shared_db_paths;
            _keys := st.1;
            envs := st.2;
            _keylens := keylens;
            _keylen_cumulative := Py.cumsum keylens;
            num_samples := Py.sum keylens;
            transform := transform |}
  else throw AssertionError.

(** [__len__] *)
Definition __len__ (self : TrajectoryLmdbDataset) : Z := num_samples self.

(** Lines 76-81 of [__getitem__]: the index of the database and of the
    element within it. *)
Definition locate (self : TrajectoryLmdbDataset) (idx : Z) : result (Z * Z) :=
  db_idx ← Py.bisect (_keylen_cumulative self) idx;
  el_idx ← (if decide (db_idx ≠ 0)
            then c ← Py.index (_keylen_cumulative self) (db_idx - 1); mret (idx - c)
            else mret idx);
  if decide (el_idx >= 0) then mret (db_idx, el_idx) else raise AssertionError.

(** [data_object.id = value] *)
Definition setattr_id (data_object : pyobj) (value : string) : result pyobj :=
  match data_object with
  | PyData d => ok (PyData (<["id" := AStr value]> d))
  | _ => raise AttributeError
  end.

(** [f"{db_idx}_{el_idx}"] *)
Definition record_id (db_idx el_idx : Z) : string :=
  Py.str db_idx +:+ "_" +:+ Py.str el_idx.

(** [if self.transform is not None: data_object = self.transform(data_object)] *)
Definition apply_transform (transform : option (pyobj → result pyobj))
    (data_object : pyobj) : result pyobj :=
  match transform with
  | Some f => f data_object
  | None => ok data_object
  end.

(** Lines 87-93 of [__getitem__]: unpickle, transform, stamp. *)
Definition decode (E : ambient) (self : TrajectoryLmdbDataset) (db_idx el_idx : Z)
    (datapoint_pickled : option string) : result pyobj :=
  data_object ← loads E datapoint_pickled;
  data_object ← apply_transform (transform self) data_object;
  setattr_id data_object (record_id db_idx el_idx).

(** Lines 84-93 of [__getitem__]: fetch the pickled datapoint and decode it. *)
Definition fetch (E : ambient) (self : TrajectoryLmdbDataset) (db_idx el_idx : Z) : M pyobj :=
  e ← lift (Py.index (envs self) db_idx);
  _ ← env_begin e;
  ks ← lift (Py.index (_keys self) db_idx);
  k ← lift (Py.index ks el_idx);
  lift (decode E self db_idx el_idx (txn_get e (Py.str k))).

Definition __getitem__ (E : ambient) (self : TrajectoryLmdbDataset) (idx : Z) : M pyobj :=
  loc ← lift (locate self idx);
  fetch E self loc.1 loc.2.

(** Values of the instance attributes [__init__] assigns; [VEnv] is what
    [connect_db] returns, kept in [self.envs] only. *)
Inductive value : Type :=
| VStr (s : string)
| VPaths (l : list string)
| VKeys (l : list (list Z))
| VEnv (e : env)
| VEnvs (l : list env)
| VInts (l : list Z)
| VInt (z : Z)
| VTransform (t : option (pyobj → result pyobj)).

(** [self.<name>]: the attributes are the ones [__init__] assigned. *)
Definition getattr (self : TrajectoryLmdbDataset) (name : string) : result value :=
  if decide (name = "config") then ok (VStr (config_src self))
  else if decide (name = "db_paths") then ok (VPaths (db_paths self))
  else if decide (name = "_keys") then ok (VKeys (_keys self))
  else if decide (name = "envs") then ok (VEnvs (envs self))
  else if decide (name = "_keylens") then ok (VInts (_keylens self))
  else if decide (name = "_keylen_cumulative") then ok (VInts (_keylen_cumulative self))
  else if decide (name = "num_samples") then ok (VInt (num_samples self))
  else if decide (name = "transform") then ok (VTransform (transform self))
  else raise AttributeError.

(** [v.close()]: only an environment has the method. *)
Definition call_close (v : value) : M unit :=
  match v with
  | VEnv e => env_close e
  | _ => throw AttributeError
  end.

(** [close_db]: [self.env.close()] *)
Definition close_db (self : TrajectoryLmdbDataset) : M unit :=
  v ← lift (getattr self "env");
  call_close v.

(** ** Collation *)

Definition no_edge_index_message : string :=
  "LMDB does not contain edge index information, set otf_graph=True".

(** Loop body of the collater: [data.edge_index[1, :].shape[0]] appended
    to [n_neighbors]. *)
Definition count_neighbors (E : ambient) (data : gmap string attr)
    (n_neighbors : list Z) : M (list Z) :=
  rows ← lift (edge_index E data);
  n_index ← lift (Py.index rows 1);
  mret (n_neighbors ++ [Py.len n_index]).

Definition is_NotImplementedError (e : exn) : bool :=
  match e with
  | NotImplementedError => true
  | _ => false
  end.

Definition data_list_collater (E : ambient) (data_list : list (gmap string attr))
    (otf_graph : bool) : M (gmap string attr) :=
  batch ← lift (from_data_list E data_list);
  if negb otf_graph then
    try_except
      (n_neighbors ← for_each (count_neighbors E) data_list [];
       mret (<["neighbors" := AVec n_neighbors]> batch))
      is_NotImplementedError
      (_ ← print no_edge_index_message; mret batch)
  else mret batch.

(** ** A small concrete deployment

    Used to run the definitions: a toy pickle format, shards holding
    [n] records under the keys ["0"] .. ["n-1"], and a choice of world
    size, rank and directory listing. *)

Module Demo.

Definition record_of (s : string) : pyobj := PyData {[ "raw" := AStr s ]}.

(** ["i<digits>"] unpickles to the integers the demos need, ["r..."] to a
    record, anything else fails. *)
Definition toy_loads (s : string) : result pyobj :=
  if decide (s = "i10") then ok (PyInt 10)
  else if decide (s = "i5") then ok (PyInt 5)
  else if decide (s = "i3") then ok (PyInt 3)
  else if decide (s = "i2") then ok (PyInt 2)
  else if decide (s = "i0") then ok (PyInt 0)
  else if String.prefix "r" s then ok (record_of s)
  else raise UnpicklingError.

(** A shard whose ["length"] entry is [length_bytes], with [n] records. *)
Definition shard (length_bytes : string) (n : Z) : gmap string string :=
  <["length" := length_bytes]>
    (list_to_map ((λ i, (Py.str i, "r" +:+ Py.str i)) <$> seqZ 0 n)).

(** A shard without a ["length"] entry. *)
Definition headless_shard (n : Z) : gmap string string :=
  list_to_map ((λ i, (Py.str i, "r" +:+ Py.str i)) <$> seqZ 0 n).

Definition files : gmap string (gmap string string) :=
  {[ "a.lmdb" := shard "i5" 5;
     "b.lmdb" := shard "i3" 3;
     "c.lmdb" := shard "i10" 10;
     "d.lmdb" := shard "i2" 2;
     "e.lmdb" := shard "i0" 0;
     "x.lmdb" := headless_shard 4;
     "y.lmdb" := shard "garbage" 4 ]}.

(** [data.edge_index[1, :]] as the graph library has it: a stored matrix
    is read; a vector has too few dimensions for two indices
    ([IndexError]); an attribute that was never set reads as [None], and
    [None], like an integer or a string, takes no such subscript
    ([TypeError]). *)
Definition toy_edge_index (d : gmap string attr) : result (list (list Z)) :=
  match d !! "edge_index" with
  | Some (AMat rows) => ok rows
  | Some (AVec _) => raise IndexError
  | _ => raise TypeError
  end.

(** An accessor of a record class that leaves the connectivity to be
    filled in later: reading it raises [NotImplementedError] unless a
    matrix is stored. *)
Definition lazy_edge_index (d : gmap string attr) : result (list (list Z)) :=
  match d !! "edge_index" with
  | Some (AMat rows) => ok rows
  | _ => raise NotImplementedError
  end.

(** [Batch.from_data_list] of the demo: it takes the fields from the first
    record ([IndexError] on an empty list), raises [KeyError] when a
    later record has other fields, and keeps the number of graphs only. *)
Definition toy_batch (l : list (gmap string attr)) : result (gmap string attr) :=
  match l with
  | [] => raise IndexError
  | d :: l' =>
      if bool_decide (Forall (λ d', dom d' = dom d) l')
      then ok {[ "num_graphs" := AInt (Py.len l) ]}
      else raise (OtherError "KeyError")
  end.

Definition deployment (w r : Z) (listing : list string) : ambient :=
  {| world_size := w;
     rank := r;
     sorted_glob := λ _, listing;
     lmdb_files := files;
     pickle_loads := toy_loads;
     from_data_list := toy_batch;
     edge_index := toy_edge_index |}.

Definition fresh_world : world :=
  {| open_handles := ∅; next_handle := 0; stdout := [] |}.

(** Two shards of lengths 5 and 3 read by a single rank. *)
Definition single : ambient := deployment 1 0 ["a.lmdb"; "b.lmdb"].


(** Three ranks, a file each and a shared shard too short to share. *)
Definition short_shared (r : Z) : ambient :=
  deployment 3 r ["a.lmdb"; "b.lmdb"; "c.lmdb"; "d.lmdb"].

Definition graph (rows : list (list Z)) : gmap string attr :=
  {[ "edge_index" := AMat rows ]}.

(** A record whose connectivity is still to be computed. *)
Definition pending : gmap string attr := {[ "edge_index" := AStr "pending" ]}.


(** The single-rank deployment with the record class whose accessor is
    unimplemented until the connectivity is stored. *)
Definition unimplemented : ambient :=
  {| world_size := 1;
     rank := 0;
     sorted_glob := λ _, ["a.lmdb"; "b.lmdb"];
     lmdb_files := files;
     pickle_loads := toy_loads;
     from_data_list := toy_batch;
     edge_index := lazy_edge_index |}.

End Demo.

(** ** Vocabulary of the statements *)

(** The world once one more environment has been opened. *)
Definition after_open (σ : world) : world :=
  {| open_handles := {[next_handle σ]} ∪ open_handles σ;
     next_handle := S (next_handle σ);
     stdout := stdout σ |}.

(** A list of integers that never decreases. *)
Definition nondecreasing (a : list Z) : Prop :=
  ∀ (i j : nat) (x y : Z), (i ≤ j)%nat → a !! i = Some x → a !! j = Some y → x ≤ y.

(** Exact sum of the first [s] entries of [lens]: the number of global
    indices that precede shard [s]. *)
Definition offset (lens : list Z) (s : nat) : Z := foldr Z.add 0 (take s lens).

(** What [__init__] establishes and [__getitem__] relies on: the tables
    are the ones computed from [_keys], there is a handle per key list,
    and every handle is open. *)
Record consistent (self : TrajectoryLmdbDataset) (σ : world) : Prop := {
  consistent_envs : length (envs self) = length (_keys self);
  consistent_keylens : _keylens self = Py.len <$> _keys self;
  consistent_cumulative : _keylen_cumulative self = Py.cumsum (_keylens self);
  consistent_num_samples : num_samples self = Py.sum (_keylens self);
  consistent_open : ∀ e, e ∈ envs self → env_handle e ∈ open_handles σ
}.

(** File [p] was opened as [e] and gave the key list [ks]: its ["length"]
    entry unpickled to a value from which [keys_of] built [ks]. *)
Definition opened (E : ambient) (keys_of : pyobj → result (list Z))
    (p : string) (ks : list Z) (e : env) : Prop :=
  ∃ db b v, lmdb_files E !! p = Some db ∧ env_db e = db ∧
            db !! "length" = Some b ∧ pickle_loads E b = ok v ∧ keys_of v = ok ks.

(** The ["length"] entry of a database is missing or does not unpickle. *)
Definition malformed (E : ambient) (db : gmap string string) : Prop :=
  db !! "length" = None ∨ ∃ b e, db !! "length" = Some b ∧ pickle_loads E b = raise e.

(** Every key this rank owns is stored in its shard, unpickles, and
    comes out of the transform as a data object. *)
Definition readable (E : ambient) (self : TrajectoryLmdbDataset) : Prop :=
  ∀ (s : nat) (e : env) (ks : list Z) (k : Z),
    envs self !! s = Some e → _keys self !! s = Some ks → k ∈ ks →
    ∃ b v d, txn_get e (Py.str k) = Some b ∧ pickle_loads E b = ok v ∧
             apply_transform (transform self) v = ok (PyData d).

(** Record [d] has a connectivity matrix whose second row is [row]. *)
Definition second_row (E : ambient) (d : gmap string attr) (row : list Z) : Prop :=
  ∃ rows, edge_index E d = ok rows ∧ rows !! 1%nat = Some row.

(** ** Vocabulary of the further properties *)

(** From [σ] to [σ'] environments were opened at most: none was closed
    and nothing was printed. *)
Definition only_opened (σ σ' : world) : Prop :=
  open_handles σ ⊆ open_handles σ' ∧
  (next_handle σ ≤ next_handle σ')%nat ∧
  stdout σ' = stdout σ.

(** The world once [line] has been printed. *)
Definition printed (line : string) (σ : world) : world :=
  {| open_handles := open_handles σ;
     next_handle := next_handle σ;
     stdout := stdout σ ++ [line] |}.

(** Order of located pairs: by shard, then by offset in the shard. *)
Definition before (a b : Z * Z) : Prop := a.1 < b.1 ∨ a.1 = b.1 ∧ a.2 < b.2.

(** A database that keeps its promise: under every key below the length
    it declares there is a record that unpickles and that the transform
    [tr] turns into a data object. *)
Definition well_formed (E : ambient) (tr : option (pyobj → result pyobj))
    (db : gmap string string) : Prop :=
  ∀ b declared, db !! "length" = Some b → pickle_loads E b = ok (PyInt declared) →
    ∀ k, 0 ≤ k < declared →
      ∃ b' v d, db !! Py.str k = Some b' ∧ pickle_loads E b' = ok v ∧
                apply_transform tr v = ok (PyData d).

(** [data.edge_index[1, :]] raises [e] on record [d]: reading the matrix
    raises it, or the matrix has no second row. *)
Definition no_second_row (E : ambient) (d : gmap string attr) (e : exn) : Prop :=
  edge_index E d = raise e ∨
  ∃ rows, edge_index E d = ok rows ∧ rows !! 1%nat = None ∧ e = IndexError.

(** The separator of [record_id]. *)
Definition underscore : Ascii.ascii := Ascii.ascii_of_nat 95.

(** Whether character [c] occurs in [s]. *)
Fixpoint occurs (c : Ascii.ascii) (s : string) : bool :=
  match s with
  | EmptyString => false
  | String c' s' => if decide (c' = c) then true else occurs c s'
  end.

(** ** A deployment with a broken promise

    One shard that declares five records and stores three. *)

Module Faulty.

Definition files : gmap string (gmap string string) :=
  {[ "z.lmdb" := Demo.shard "i5" 3 ]}.

Definition deployment : ambient :=
  {| world_size := 1;
     rank := 0;
     sorted_glob := λ _, ["z.lmdb"];
     lmdb_files := files;
     pickle_loads := Demo.toy_loads;
     from_data_list := Demo.toy_batch;
     edge_index := Demo.toy_edge_index |}.

End Faulty.

(** * Properties *)

(** ** Python built-ins *)

Lemma len_nonneg {A} (l : list A) : 0 ≤ Py.len l.
Proof. unfold Py.len. lia. Qed.

Lemma index_inside {A} (l : list A) (i : Z) :
  0 ≤ i < Py.len l → ∃ v, l !! Z.to_nat i = Some v ∧ Py.index l i = ok v.
Proof.
  intros Hi. unfold Py.index.
  destruct (decide (i < 0)) as [|_]; [lia|].
  destruct (decide (0 ≤ i < Py.len l)) as [_|]; [|lia].
  destruct (lookup_lt_is_Some_2 l (Z.to_nat i)) as [v Hv].
  { unfold Py.len in Hi. lia. }
  exists v. by rewrite Hv.
Qed.

Lemma index_lookup {A} (l : list A) (i : Z) (v : A) :
  0 ≤ i → l !! Z.to_nat i = Some v → Py.index l i = ok v.
Proof.
  intros Hi Hv. destruct (index_inside l i) as (w & Hw & ->).
  - apply lookup_lt_Some in Hv. unfold Py.len. lia.
  - congruence.
Qed.

Lemma index_beyond {A} (l : list A) (i : Z) :
  Py.len l ≤ i → Py.index l i = raise IndexError.
Proof.
  intros Hi. pose proof (len_nonneg l). unfold Py.index.
  destruct (decide (i < 0)); [lia|].
  destruct (decide (0 ≤ i < Py.len l)); [lia|done].
Qed.


Lemma mid_between (lo hi : Z) : lo < hi → lo ≤ (lo + hi) `div` 2 < hi.
Proof.
  intros. split; [apply Z.div_le_lower_bound | apply Z.div_lt_upper_bound]; lia.
Qed.

Lemma bisect_right_spec (a : list Z) (x lo hi : Z) :
  0 ≤ lo → lo ≤ hi → hi ≤ Py.len a →
  ∃ r, Py.bisect_right a x lo hi = ok r ∧ lo ≤ r ≤ hi ∧
       (nondecreasing a →
        (∀ (j : nat) v, Z.of_nat j < lo → a !! j = Some v → v ≤ x) →
        (∀ (j : nat) v, hi ≤ Z.of_nat j → a !! j = Some v → x < v) →
        (∀ (j : nat) v, Z.of_nat j < r → a !! j = Some v → v ≤ x) ∧
        (∀ (j : nat) v, r ≤ Z.of_nat j → a !! j = Some v → x < v)).
Proof.
  funelim (Py.bisect_right a x lo hi); intros Hlo Hle Hhi.
  - exists lo. split; [done|]. split; [lia|]. intros _ Hl Hh. split; [done|].
    intros j v Hj. apply Hh. lia.
  - destruct (index_inside a ((lo + hi) `div` 2)) as (v & _ & Hv).
    { pose proof (mid_between lo hi l). lia. }
    rewrite Hv in Heq. discriminate.
  - pose proof (mid_between lo hi l) as Hmid.
    destruct H as (r & Hr & Hbounds & Hspec); [lia..|].
    exists r. split; [done|]. split; [lia|]. intros Hsorted Hl Hh.
    apply Hspec; [done..|]. intros j w Hj Hw.
    destruct (index_inside a ((lo + hi) `div` 2)) as (v' & Hv' & Hv''); [lia|].
    assert (v' = v) as ->
      by (match goal with Hi : Py.index _ _ = inr _ |- _ =>
            rewrite Hv'' in Hi; by injection Hi end).
    assert (v ≤ w); [|lia].
    eapply (Hsorted (Z.to_nat ((lo + hi) `div` 2)) j); [lia|done..].
  - pose proof (mid_between lo hi l) as Hmid.
    destruct H as (r & Hr & Hbounds & Hspec); [lia..|].
    exists r. split; [done|]. split; [lia|]. intros Hsorted Hl Hh.
    apply Hspec; [done| |done]. intros j w Hj Hw.
    destruct (index_inside a ((lo + hi) `div` 2)) as (v' & Hv' & Hv''); [lia|].
    assert (v' = v) as ->
      by (match goal with Hi : Py.index _ _ = inr _ |- _ =>
            rewrite Hv'' in Hi; by injection Hi end).
    assert (w ≤ v); [|lia].
    eapply (Hsorted j (Z.to_nat ((lo + hi) `div` 2))); [lia|done..].
Qed.

(** *** Prefix sums *)

Lemma foldl_add (l : list Z) (acc : Z) : foldl Z.add acc l = acc + foldr Z.add 0 l.
Proof.
  revert acc. induction l as [|x l IH]; intros acc; simpl; [lia|]. rewrite IH. lia.
Qed.

Lemma sum_foldr (l : list Z) : Py.sum l = foldr Z.add 0 l.
Proof. unfold Py.sum. by rewrite foldl_add. Qed.

Lemma offset_0 (lens : list Z) : offset lens 0 = 0.
Proof. done. Qed.

Lemma offset_S (lens : list Z) (s : nat) (n : Z) :
  lens !! s = Some n → offset lens (S s) = offset lens s + n.
Proof.
  unfold offset. revert s. induction lens as [|x lens IH]; intros [|s] Hs; simplify_eq/=.
  - lia.
  - rewrite (IH s Hs). lia.
Qed.

Lemma offset_all (lens : list Z) (s : nat) :
  (length lens ≤ s)%nat → offset lens s = Py.sum lens.
Proof. intros Hs. unfold offset. by rewrite take_ge, sum_foldr. Qed.

Lemma offset_mono (lens : list Z) (s t : nat) :
  Forall (λ n, 0 ≤ n) lens → (s ≤ t)%nat → offset lens s ≤ offset lens t.
Proof.
  intros Hpos Hst. induction Hst as [|t Hst IH]; [lia|].
  destruct (lens !! t) as [n|] eqn:Hn.
  - rewrite (offset_S _ _ _ Hn). rewrite Forall_lookup in Hpos.
    specialize (Hpos _ _ Hn). simpl in Hpos. lia.
  - apply lookup_ge_None in Hn. rewrite (offset_all lens (S t)) by lia.
    rewrite (offset_all lens t) in IH by lia. done.
Qed.

Lemma offset_nonneg (lens : list Z) (s : nat) :
  Forall (λ n, 0 ≤ n) lens → 0 ≤ offset lens s.
Proof. intros. rewrite <- (offset_0 lens). apply offset_mono; [done|lia]. Qed.

Lemma offset_le_sum (lens : list Z) (s : nat) :
  Forall (λ n, 0 ≤ n) lens → offset lens s ≤ Py.sum lens.
Proof.
  intros Hpos. destruct (decide (s ≤ length lens)%nat).
  - rewrite <- (offset_all lens (length lens)) by lia. by apply offset_mono.
  - rewrite offset_all by lia. lia.
Qed.

Lemma wrap64_small (z : Z) : - 2 ^ 63 ≤ z < 2 ^ 63 → Py.wrap64 z = z.
Proof. intros Hz. unfold Py.wrap64. rewrite Z.mod_small; lia. Qed.

Lemma cumsum_from_length (acc : Z) (l : list Z) : length (Py.cumsum_from acc l) = length l.
Proof. revert acc. induction l as [|x l IH]; intros acc; simpl; [done|]. by rewrite IH. Qed.

Lemma cumsum_from_lookup (acc : Z) (l : list Z) (i : nat) :
  Forall (λ n, 0 ≤ n) l → 0 ≤ acc → acc + Py.sum l < 2 ^ 63 →
  (i < length l)%nat →
  Py.cumsum_from acc l !! i = Some (acc + offset l (S i)).
Proof.
  revert acc i. induction l as [|x l IH]; intros acc i Hpos Hacc Hsum Hi; simpl in *; [lia|].
  rewrite sum_foldr in Hsum. simpl in Hsum.
  apply Forall_cons in Hpos as [Hx Hpos].
  pose proof (offset_nonneg l (length l) Hpos) as Hl.
  rewrite offset_all, sum_foldr in Hl by lia.
  rewrite wrap64_small by lia.
  destruct i as [|i]; simpl.
  - f_equal. unfold offset. simpl. lia.
  - rewrite IH; [|done|lia|rewrite sum_foldr; lia|lia].
    f_equal. unfold offset. simpl. lia.
Qed.

(** *** The cumulative table of a consistent dataset *)

Section cumulative.
Context (self : TrajectoryLmdbDataset) (σ : world).
Context (Hself : consistent self σ) (Hbound : num_samples self < 2 ^ 63).

Let lens := _keylens self.
Let cum := _keylen_cumulative self.

Lemma keylens_nonneg : Forall (λ n, 0 ≤ n) lens.
Proof.
  subst lens. rewrite (consistent_keylens _ _ Hself).
  apply Forall_fmap, Forall_true. intros ks. apply len_nonneg.
Qed.

Lemma keylens_length : length lens = length (_keys self).
Proof. subst lens. by rewrite (consistent_keylens _ _ Hself), length_fmap. Qed.

Lemma keylens_lookup (s : nat) (ks : list Z) :
  _keys self !! s = Some ks → lens !! s = Some (Py.len ks).
Proof.
  intros Hs. subst lens. rewrite (consistent_keylens _ _ Hself).
  by rewrite list_lookup_fmap, Hs.
Qed.

Lemma cumulative_length : length cum = length lens.
Proof.
  subst cum lens. rewrite (consistent_cumulative _ _ Hself).
  apply cumsum_from_length.
Qed.

Lemma cumulative_lookup (i : nat) :
  (i < length lens)%nat → cum !! i = Some (offset lens (S i)).
Proof.
  intros Hi. subst cum. rewrite (consistent_cumulative _ _ Hself).
  unfold Py.cumsum. rewrite cumsum_from_lookup; [f_equal; lia| |done| |done].
  - apply keylens_nonneg.
  - rewrite <- (consistent_num_samples _ _ Hself). lia.
Qed.

Lemma cumulative_lookup_inv (i : nat) (c : Z) :
  cum !! i = Some c → c = offset lens (S i).
Proof.
  intros Hc. pose proof (lookup_lt_Some _ _ _ Hc) as Hi.
  rewrite cumulative_length in Hi. rewrite cumulative_lookup in Hc by done.
  congruence.
Qed.

Lemma cumulative_nondecreasing : nondecreasing cum.
Proof.
  intros i j x y Hij Hx Hy.
  rewrite (cumulative_lookup_inv _ _ Hx), (cumulative_lookup_inv _ _ Hy).
  apply offset_mono; [apply keylens_nonneg|lia].
Qed.

Lemma num_samples_offset : num_samples self = offset lens (length lens).
Proof. rewrite offset_all by done. apply (consistent_num_samples _ _ Hself). Qed.

(** The bisection lands on the first shard whose cumulative length
    exceeds [idx]. *)
Lemma bisect_cumulative (idx : Z) :
  ∃ r : nat, Py.bisect cum idx = ok (Z.of_nat r) ∧ (r ≤ length lens)%nat ∧
    (∀ j : nat, (j < r)%nat → offset lens (S j) ≤ idx) ∧
    (∀ j : nat, (r ≤ j < length lens)%nat → idx < offset lens (S j)).
Proof.
  destruct (bisect_right_spec cum idx 0 (Py.len cum)) as (r & Hr & Hrange & Hspec);
    [lia|apply len_nonneg|lia|].
  destruct Hspec as [Hbelow Habove].
  { apply cumulative_nondecreasing. }
  { intros j v Hj. lia. }
  { intros j v Hj Hv. apply lookup_lt_Some in Hv. unfold Py.len in Hj. lia. }
  exists (Z.to_nat r). rewrite Z2Nat.id by lia. split; [done|].
  unfold Py.len in Hrange. rewrite cumulative_length in Hrange.
  split; [lia|]. split.
  - intros j Hj. apply (Hbelow j); [lia|]. apply cumulative_lookup. lia.
  - intros j Hj. apply (Habove j); [lia|]. apply cumulative_lookup. lia.
Qed.

Lemma locate_inside (idx : Z) :
  0 ≤ idx < num_samples self →
  ∃ (s : nat) (ks : list Z),
    Py.bisect cum idx = ok (Z.of_nat s) ∧
    locate self idx = ok (Z.of_nat s, idx - offset lens s) ∧
    _keys self !! s = Some ks ∧
    offset lens (S s) = offset lens s + Py.len ks ∧
    0 ≤ idx - offset lens s < Py.len ks.
Proof.
  intros Hidx. destruct (bisect_cumulative idx) as (r & Hr & Hle & Hbelow & Habove).
  rewrite num_samples_offset in Hidx.
  assert (r < length lens)%nat as Hlt.
  { destruct (decide (r = length lens)) as [->|]; [|lia].
    destruct (length lens) as [|n] eqn:Hn; [rewrite offset_0 in Hidx; lia|].
    specialize (Hbelow n). lia. }
  destruct (lookup_lt_is_Some_2 (_keys self) r) as [ks Hks].
  { by rewrite <- keylens_length. }
  pose proof (offset_S _ _ _ (keylens_lookup _ _ Hks)) as HS.
  exists r, ks. split; [done|]. split; [|split; [done|split; [done|]]].
  - unfold locate. fold cum. rewrite Hr. simpl.
    destruct r as [|r].
    + rewrite decide_False by lia. simpl. rewrite offset_0, Z.sub_0_r.
      rewrite decide_True by lia. done.
    + rewrite decide_True by lia. 
      rewrite (index_lookup cum _ (offset lens (S r))); [|lia|].
      * simpl. rewrite decide_True; [done|]. specialize (Hbelow r). lia.
      * replace (Z.to_nat (Z.of_nat (S r) - 1)) with r by lia.
        apply cumulative_lookup. lia.
  - specialize (Habove r). destruct r as [|r].
    + rewrite offset_0 in HS |- *. lia.
    + specialize (Hbelow r). lia.
Qed.

Lemma locate_beyond (idx : Z) :
  num_samples self ≤ idx →
  locate self idx = ok (Py.len (_keys self), idx - num_samples self).
Proof.
  intros Hidx. destruct (bisect_cumulative idx) as (r & Hr & Hle & Hbelow & Habove).
  rewrite num_samples_offset in Hidx |- *.
  assert (r = length lens) as ->.
  { destruct (decide (r = length lens)) as [|]; [done|].
    specialize (Habove r).
    pose proof (offset_mono lens (S r) (length lens) keylens_nonneg). lia. }
  pose proof (offset_nonneg lens (length lens) keylens_nonneg).
  unfold locate. fold cum. rewrite Hr. simpl. unfold Py.len. rewrite <- keylens_length.
  destruct (length lens) as [|n] eqn:Hn.
  - rewrite decide_False by lia. simpl. rewrite offset_0 in Hidx |- *.
    rewrite decide_True by lia. by rewrite Z.sub_0_r.
  - rewrite decide_True by lia.
    rewrite (index_lookup cum _ (offset lens (S n))); [|lia|].
    + simpl. rewrite decide_True by lia. done.
    + replace (Z.to_nat (Z.of_nat (S n) - 1)) with n by lia.
      apply cumulative_lookup. lia.
Qed.

Lemma locate_negative (idx : Z) :
  idx < 0 → locate self idx = raise AssertionError.
Proof.
  intros Hidx. destruct (bisect_cumulative idx) as (r & Hr & Hle & Hbelow & Habove).
  assert (r = 0)%nat as ->.
  { destruct r as [|r]; [done|]. specialize (Hbelow 0%nat).
    pose proof (offset_nonneg lens 1 keylens_nonneg). lia. }
  unfold locate. fold cum. rewrite Hr. simpl.
  by rewrite decide_False by lia.
Qed.

End cumulative.

(** *** Running the constructor *)

Lemma index_last {A} (l : list A) (x : A) : Py.index (l ++ [x]) (-1) = ok x.
Proof.
  unfold Py.index.
  assert (Py.len (l ++ [x]) = Z.of_nat (length l) + 1) as ->
    by (unfold Py.len; rewrite length_app; simpl; lia).
  destruct (decide (-1 < 0)) as [_|]; [|lia].
  destruct (decide (0 ≤ _ < _)) as [_|]; [|lia].
  replace (Z.to_nat (-1 + (Z.of_nat (length l) + 1))) with (length l) by lia.
  by rewrite list_lookup_middle.
Qed.

Lemma bind_ok_inv {A B} (m : M A) (k : A → M B) (σ σ' : world) (b : B) :
  (m ≫= k) σ = (ok b, σ') → ∃ a σ1, m σ = (ok a, σ1) ∧ k a σ1 = (ok b, σ').
Proof.
  unfold mbind, M_bind. destruct (m σ) as [[e|a] σ1]; [discriminate|]. eauto.
Qed.

Lemma bind_raise {A B} (m : M A) (k : A → M B) (σ σ' : world) (e : exn) :
  m σ = (raise e, σ') → (m ≫= k) σ = (raise e, σ').
Proof. unfold mbind, M_bind. by intros ->. Qed.

Lemma bind_ok {A B} (m : M A) (k : A → M B) (σ σ' : world) (a : A) :
  m σ = (ok a, σ') → (m ≫= k) σ = k a σ'.
Proof. unfold mbind, M_bind. by intros ->. Qed.

Lemma lift_ok_inv {A} (r : result A) (σ σ' : world) (a : A) :
  lift r σ = (ok a, σ') → r = ok a ∧ σ' = σ.
Proof. unfold lift. intros [= -> ->]. done. Qed.

Lemma open_db_inv E keys_of p st σ st' σ' :
  open_db E keys_of p st σ = (ok st', σ') →
  ∃ ks e, st' = (st.1 ++ [ks], st.2 ++ [e]) ∧ opened E keys_of p ks e ∧
          env_handle e = next_handle σ ∧
          open_handles σ' = {[next_handle σ]} ∪ open_handles σ ∧
          next_handle σ' = S (next_handle σ) ∧ stdout σ' = stdout σ.
Proof.
  unfold open_db, connect_db. intros H.
  apply bind_ok_inv in H as (e & σ1 & Hopen & H).
  unfold lmdb_open in Hopen. destruct (lmdb_files E !! p) as [db|] eqn:Hdb; [|discriminate].
  injection Hopen as <- <-.
  apply bind_ok_inv in H as (v & σ2 & Hlen & H).
  apply bind_ok_inv in H as (ks & σ3 & Hks & H).
  apply lift_ok_inv in Hks as [Hks ->].
  injection H as <- <-.
  unfold read_length in Hlen. rewrite index_last in Hlen.
  apply bind_ok_inv in Hlen as (e & σ1 & He & Hlen).
  apply lift_ok_inv in He as [[= <-] ->].
  apply bind_ok_inv in Hlen as ([] & σ1 & Hbegin & Hlen).
  unfold env_begin in Hbegin. simpl in Hbegin.
  rewrite decide_True in Hbegin by set_solver. injection Hbegin as <-.
  apply lift_ok_inv in Hlen as [Hv ->].
  unfold loads, txn_get in Hv. simpl in Hv.
  destruct (db !! "length") as [b|] eqn:Hb; [|discriminate].
  eexists ks, _. split; [done|]. split; [|done].
  exists db, b, v. done.
Qed.

Lemma for_each_open_db_inv E keys_of ps st σ st' σ' :
  for_each (open_db E keys_of) ps st σ = (ok st', σ') →
  ∃ kss es, st' = (st.1 ++ kss, st.2 ++ es) ∧
            Forall3 (opened E keys_of) ps kss es ∧
            open_handles σ ⊆ open_handles σ' ∧
            (∀ e, e ∈ es → env_handle e ∈ open_handles σ') ∧
            stdout σ' = stdout σ.
Proof.
  revert st σ. induction ps as [|p ps IH]; intros st σ H; simpl in H.
  - injection H as <- <-. exists [], []. rewrite !app_nil_r.
    split; [by destruct st|]. split; [constructor|]. split; [done|].
    split; [|done]. intros e He. by apply elem_of_nil in He.
  - apply bind_ok_inv in H as (st1 & σ1 & Hstep & H).
    apply open_db_inv in Hstep as (ks & e & -> & Hopened & He & Hopen & _ & Hout).
    apply IH in H as (kss & es & -> & Hall & Hsub & Hes & Hout'). simpl in *.
    exists (ks :: kss), (e :: es). rewrite <- !app_assoc. simpl.
    split; [done|]. split; [by constructor|]. split.
    { intros h Hh. apply Hsub. rewrite Hopen. by apply elem_of_union_r. }
    split; [|congruence].
    intros e' [->|He']%elem_of_cons; [|by apply Hes].
    apply Hsub. rewrite Hopen, He. by apply elem_of_union_l, elem_of_singleton_2.
Qed.

(** What a successful [__init__] has done. *)
Lemma init_inv E src tr σ0 self σ1 :
  __init__ E src tr σ0 = (ok self, σ1) →
  consistent self σ1 ∧ transform self = tr ∧ stdout σ1 = stdout σ0 ∧
  ∃ full shared kss1 kss2 es1 es2,
    partition_paths (world_size E) (rank E) (sorted_glob E src) = ok (full, shared) ∧
    db_paths self = full ++ shared ∧
    _keys self = kss1 ++ kss2 ∧ envs self = es1 ++ es2 ∧
    Forall3 (opened E full_keys) full kss1 es1 ∧
    Forall3 (opened E (shared_keys (world_size E) (rank E))) shared kss2 es2.
Proof.
  unfold __init__. intros H. case_decide as Hlen; [|discriminate].
  apply bind_ok_inv in H as ([full shared] & σ & Hpart & H).
  apply lift_ok_inv in Hpart as [Hpart ->].
  apply bind_ok_inv in H as (st1 & σ2 & Hfull & H).
  apply bind_ok_inv in H as (st2 & σ3 & Hshared & H).
  injection H as <- <-.
  apply for_each_open_db_inv in Hfull as (kss1 & es1 & -> & Hall1 & Hsub1 & Hes1 & Hout1).
  apply for_each_open_db_inv in Hshared as (kss2 & es2 & -> & Hall2 & Hsub2 & Hes2 & Hout2).
  simpl in *. split; [|split; [done|split; [congruence|]]].
  - constructor; simpl; try done.
    + rewrite !length_app.
      apply Forall3_length_lr in Hall1 as Hl1. apply Forall3_length_lr in Hall2 as Hl2.
      apply Forall3_length_lm in Hall1. apply Forall3_length_lm in Hall2. lia.
    + intros e [He|He]%elem_of_app; [apply Hsub2, Hes1|apply Hes2]; done.
  - exists full, shared, kss1, kss2, es1, es2. done.
Qed.

(** *** Slices and ranges *)

Lemma omap_total {A B} (f : A → option B) (l : list A) :
  (∀ x, x ∈ l → is_Some (f x)) →
  length (omap f l) = length l ∧ ∀ k x, l !! k = Some x → omap f l !! k = f x.
Proof.
  induction l as [|a l IH]; intros Hf.
  - split; [done|]. intros k x Hk. done.
  - destruct (Hf a) as [b Hb]; [left|].
    destruct IH as [IHlen IHlook]; [intros x Hx; apply Hf; by right|].
    assert (omap f (a :: l) = b :: omap f l) as -> by (cbn; by rewrite Hb).
    split; [simpl; by rewrite IHlen|].
    intros [|k] x Hk; simplify_eq/=; [done|]. by apply IHlook.
Qed.

Lemma slice_bound_inside (n step i : Z) :
  0 < step → 0 ≤ i ≤ n → Py.slice_bound n step i = i.
Proof. intros. unfold Py.slice_bound. repeat case_decide; lia. Qed.

Lemma range_len_unit (start stop : Z) :
  start ≤ stop → Py.range_len start stop 1 = stop - start.
Proof.
  intros. unfold Py.range_len. repeat case_decide; try lia.
  rewrite Z.div_1_r. lia.
Qed.

Lemma range_len_stride (w r q : Z) :
  1 ≤ w → 0 ≤ r < w → 0 ≤ q → Py.range_len r (w * q) w = q.
Proof.
  intros Hw Hr Hq. unfold Py.range_len.
  destruct (decide (0 < w)); [|lia].
  destruct (decide (r < w * q)) as [Hlt|Hge].
  - assert (1 ≤ q) by nia.
    rewrite <- (Z.div_unique_pos (w * q - r - 1) w (q - 1) (w - r - 1)); [lia|lia|nia].
  - nia.
Qed.

Lemma full_keys_range (n : Z) : full_keys (PyInt n) = ok (seqZ 0 n).
Proof.
  unfold full_keys, Py.range. destruct (decide (1 = 0)) as [|_]; [lia|]. f_equal.
  assert (Py.range_len 0 n 1 = Z.max 0 n) as ->.
  { unfold Py.range_len. repeat case_decide; try lia. rewrite Z.div_1_r. lia. }
  assert (seqZ 0 (0 `max` n) = seqZ 0 n) as ->.
  { unfold seqZ. by replace (Z.to_nat (0 `max` n)) with (Z.to_nat n) by lia. }
  rewrite <- (list_fmap_id (seqZ 0 n)) at 2. apply list_fmap_ext.
  intros i x Hx. simpl. lia.
Qed.

Section stride.
Context {A : Type} (l : list A) (w : Z) (Hw : 1 ≤ w).

Let n := Py.len l.
Let q := n `div` w.

Lemma num_full_stride : n - n `mod` w = w * q.
Proof. subst q. pose proof (Z.div_mod n w). lia. Qed.

Lemma num_full_bounds : 0 ≤ w * q ≤ n ∧ 0 ≤ q ∧ n < w * q + w.
Proof.
  pose proof (len_nonneg l). fold n in H.
  pose proof (Z.mod_pos_bound n w). pose proof num_full_stride.
  assert (0 ≤ q) by (apply Z.div_pos; lia). lia.
Qed.

(** The files of rank [r]: every [w]-th of the first [w * q]. *)
Lemma slice_stride (r : Z) :
  0 ≤ r < w →
  ∃ sl, Py.slice l r (n - n `mod` w) w = ok sl ∧ Py.len sl = q ∧
        ∀ i : nat, Z.of_nat i < q → sl !! i = l !! Z.to_nat (r + Z.of_nat i * w).
Proof.
  intros Hr. pose proof num_full_bounds as (Hnf & Hq & Hn).
  rewrite num_full_stride. unfold Py.slice. rewrite decide_False by lia.
  eexists. split; [done|]. fold n.
  rewrite (slice_bound_inside n w (w * q)) by lia.
  destruct (decide (q = 0)) as [Hq0|Hq0].
  - rewrite Hq0, Z.mul_0_r.
    assert (Py.range_len (Py.slice_bound n w r) 0 w = 0) as ->.
    { unfold Py.range_len, Py.slice_bound. repeat case_decide; lia. }
    split; [done|]. intros i Hi. lia.
  - rewrite (slice_bound_inside n w r) by nia.
    rewrite range_len_stride by lia.
    destruct (omap_total (λ i, l !! Z.to_nat (r + i * w)) (seqZ 0 q)) as [Hlen Hlook].
    { intros i Hi. apply elem_of_seqZ in Hi. apply lookup_lt_is_Some_2.
      subst n. unfold Py.len in *. nia. }
    split.
    + unfold Py.len. rewrite Hlen, length_seqZ. lia.
    + intros i Hi. apply Hlook. apply lookup_seqZ. lia.
Qed.

(** The shared files: everything from [w * q] on. *)
Lemma slice_from_drop : Py.slice_from l (n - n `mod` w) = drop (Z.to_nat (w * q)) l.
Proof.
  pose proof num_full_bounds as (Hnf & Hq & Hn).
  rewrite num_full_stride. unfold Py.slice_from. fold n.
  rewrite (slice_bound_inside n 1 (w * q)) by lia.
  rewrite range_len_unit by lia.
  destruct (omap_total (λ i, l !! Z.to_nat (w * q + i)) (seqZ 0 (n - w * q)))
    as [Hlen Hlook].
  { intros i Hi. apply elem_of_seqZ in Hi. apply lookup_lt_is_Some_2.
    subst n. unfold Py.len in *. lia. }
  apply list_eq. intros i. rewrite lookup_drop.
  destruct (decide (Z.of_nat i < n - w * q)) as [Hi|Hi].
  - rewrite (Hlook i (Z.of_nat i)) by (apply lookup_seqZ; lia). f_equal. lia.
  - rewrite !(proj2 (lookup_ge_None _ _)); [done| |].
    + subst n. unfold Py.len in *. lia.
    + rewrite Hlen, length_seqZ. lia.
Qed.

End stride.

(** *** Fetching *)

Lemma fetch_inside E self σ (s : nat) (el : Z) e ks k :
  envs self !! s = Some e → env_handle e ∈ open_handles σ →
  _keys self !! s = Some ks → 0 ≤ el → ks !! Z.to_nat el = Some k →
  fetch E self (Z.of_nat s) el σ =
    (decode E self (Z.of_nat s) el (txn_get e (Py.str k)), σ).
Proof.
  intros He Hopen Hks Hel Hk. unfold fetch.
  rewrite (bind_ok _ _ σ σ e).
  2:{ unfold lift. rewrite (index_lookup _ _ e); [done|lia|by rewrite Nat2Z.id]. }
  rewrite (bind_ok _ _ σ σ ()).
  2:{ unfold env_begin. by rewrite decide_True. }
  rewrite (bind_ok _ _ σ σ ks).
  2:{ unfold lift. rewrite (index_lookup _ _ ks); [done|lia|by rewrite Nat2Z.id]. }
  rewrite (bind_ok _ _ σ σ k).
  2:{ unfold lift. by rewrite (index_lookup _ _ k). }
  done.
Qed.

Lemma getitem_located E self σ idx loc :
  locate self idx = ok loc → __getitem__ E self idx σ = fetch E self loc.1 loc.2 σ.
Proof. intros Hloc. unfold __getitem__. by rewrite (bind_ok _ _ σ σ loc) by (unfold lift; by rewrite Hloc). Qed.

Lemma getitem_raise E self σ idx e :
  locate self idx = raise e → __getitem__ E self idx σ = (raise e, σ).
Proof. intros Hloc. unfold __getitem__. apply bind_raise. unfold lift. by rewrite Hloc. Qed.

Lemma decode_readable E self db_idx el_idx b v d :
  pickle_loads E b = ok v → apply_transform (transform self) v = ok (PyData d) →
  decode E self db_idx el_idx (Some b) =
    ok (PyData (<["id" := AStr (record_id db_idx el_idx)]> d)).
Proof. intros Hv Hd. unfold decode. simpl. rewrite Hv. simpl. by rewrite Hd. Qed.

(** Inside the range, [__getitem__] reads the key that the located pair
    names, from the handle of the located shard. *)
Lemma getitem_inside E self σ idx :
  consistent self σ → num_samples self < 2 ^ 63 → 0 ≤ idx < num_samples self →
  ∃ (s : nat) (e : env) (ks : list Z) (k : Z),
    locate self idx = ok (Z.of_nat s, idx - offset (_keylens self) s) ∧
    envs self !! s = Some e ∧ _keys self !! s = Some ks ∧
    0 ≤ idx - offset (_keylens self) s < Py.len ks ∧
    ks !! Z.to_nat (idx - offset (_keylens self) s) = Some k ∧
    __getitem__ E self idx σ =
      (decode E self (Z.of_nat s) (idx - offset (_keylens self) s)
         (txn_get e (Py.str k)), σ).
Proof.
  intros Hself Hbound Hidx.
  destruct (locate_inside self σ Hself Hbound idx Hidx)
    as (s & ks & _ & Hloc & Hks & _ & Hel).
  destruct (lookup_lt_is_Some_2 (envs self) s) as [e He].
  { rewrite (consistent_envs _ _ Hself). by eapply lookup_lt_Some. }
  destruct (lookup_lt_is_Some_2 ks (Z.to_nat (idx - offset (_keylens self) s))) as [k Hk].
  { unfold Py.len in Hel. lia. }
  exists s, e, ks, k. do 5 (split; [done|]).
  rewrite (getitem_located _ _ _ _ _ Hloc). simpl.
  apply (fetch_inside E self σ s _ e ks k); [done| |done|lia|done].
  apply (consistent_open _ _ Hself). by eapply list_elem_of_lookup_2.
Qed.

(** ** Index resolution *)

(** C1. For a dataset built by [__init__] and a global index [idx] with
    [0 <= idx < num_samples], [__getitem__] resolves as follows.  The
    cumulative table never decreases; [db_idx], the result of the
    bisection, is the first position whose cumulative length [c] strictly
    exceeds [idx] (every earlier entry is [<= idx]); [el_idx] is [idx]
    minus the previous cumulative entry [prev], taken as 0 when
    [db_idx = 0]; and the record is read under the key
    [_keys[db_idx][el_idx]] from the handle [envs[db_idx]].  The bound on
    [num_samples] is the range of the [int64] accumulator of
    [np.cumsum]. *)
Theorem getitem_resolution E src tr σ0 self σ1 idx :
  __init__ E src tr σ0 = (ok self, σ1) →
  num_samples self < 2 ^ 63 →
  0 ≤ idx < num_samples self →
  nondecreasing (_keylen_cumulative self) ∧
  ∃ (db_idx el_idx c prev : Z) (e : env) (ks : list Z) (k : Z),
    Py.bisect (_keylen_cumulative self) idx = ok db_idx ∧
    0 ≤ db_idx ∧
    _keylen_cumulative self !! Z.to_nat db_idx = Some c ∧ idx < c ∧
    (∀ (j : nat) (c' : Z),
       Z.of_nat j < db_idx → _keylen_cumulative self !! j = Some c' → c' ≤ idx) ∧
    (db_idx = 0 ∧ prev = 0 ∨
     0 < db_idx ∧ _keylen_cumulative self !! Z.to_nat (db_idx - 1) = Some prev) ∧
    el_idx = idx - prev ∧
    locate self idx = ok (db_idx, el_idx) ∧
    envs self !! Z.to_nat db_idx = Some e ∧
    _keys self !! Z.to_nat db_idx = Some ks ∧
    0 ≤ el_idx ∧ ks !! Z.to_nat el_idx = Some k ∧
    __getitem__ E self idx σ1 =
      (decode E self db_idx el_idx (txn_get e (Py.str k)), σ1).
Proof.
  intros Hinit Hbound Hidx. apply init_inv in Hinit as (Hself & _).
  split; [by eapply cumulative_nondecreasing|].
  destruct (locate_inside self σ1 Hself Hbound idx Hidx)
    as (s & ks & Hbis & Hloc & Hks & HS & Hel).
  pose proof (lookup_lt_Some _ _ _ Hks) as Hs.
  destruct (lookup_lt_is_Some_2 (envs self) s) as [e He].
  { by rewrite (consistent_envs _ _ Hself). }
  destruct (lookup_lt_is_Some_2 ks (Z.to_nat (idx - offset (_keylens self) s))) as [k Hk].
  { unfold Py.len in Hel. lia. }
  rewrite <- (keylens_length self σ1 Hself) in Hs.
  exists (Z.of_nat s), (idx - offset (_keylens self) s),
    (offset (_keylens self) (S s)), (offset (_keylens self) s), e, ks, k.
  rewrite Nat2Z.id.
  split; [done|]. split; [lia|].
  split; [by eapply cumulative_lookup|]. split; [lia|]. split; [|split].
  - intros j c' Hj Hc'.
    rewrite (cumulative_lookup_inv self σ1 Hself Hbound _ _ Hc').
    pose proof (offset_mono (_keylens self) (S j) s (keylens_nonneg self σ1 Hself)). lia.
  - destruct s as [|s]; [left; by rewrite offset_0|right]. split; [lia|].
    replace (Z.to_nat (Z.of_nat (S s) - 1)) with s by lia.
    eapply cumulative_lookup; [done..|lia].
  - split; [done|]. split; [done|]. split; [done|]. split; [done|]. split; [lia|].
    split; [done|]. rewrite (getitem_located _ _ _ _ _ Hloc). simpl.
    apply (fetch_inside E self σ1 s _ e ks k); [done| |done|lia|done].
    apply (consistent_open _ _ Hself). by eapply list_elem_of_lookup_2.
Qed.

Lemma getitem_resolution_witness :
  ∃ self σ1,
    __init__ Demo.single "data" None Demo.fresh_world = (ok self, σ1) ∧
    num_samples self < 2 ^ 63 ∧ 0 ≤ 6 < num_samples self ∧
    ∃ db_idx el_idx e k,
      locate self 6 = ok (db_idx, el_idx) ∧
      __getitem__ Demo.single self 6 σ1 =
        (decode Demo.single self db_idx el_idx (txn_get e (Py.str k)), σ1).
Proof.
  eexists _, _. split; [reflexivity|]. split; [reflexivity|]. split; [done|].
  edestruct (getitem_resolution Demo.single "data" None Demo.fresh_world)
    with (idx := 6)
    as (_ & db_idx & el_idx & c & prev & e & ks & k & _ & _ & _ & _ & _ & _ & _
        & Hloc & _ & _ & _ & _ & Hget);
    [reflexivity|reflexivity|done|].
  exists db_idx, el_idx, e, k. split; [exact Hloc|exact Hget].
Defined.

(** C2. For a dataset built by [__init__] with [num_samples = N], the map
    [idx ↦ (db_idx, el_idx)] computed by [__getitem__] is a bijection from
    [[0, N)] onto the pairs [(s, o)] with [0 <= o < len(_keys[s])]: it
    lands on such a pair, two indices with the same pair are equal, and
    every such pair is the image of an index of the range. *)
Theorem resolution_bijection E src tr σ0 self σ1 :
  __init__ E src tr σ0 = (ok self, σ1) →
  num_samples self < 2 ^ 63 →
  (∀ idx, 0 ≤ idx < num_samples self →
     ∃ s o ks, locate self idx = ok (s, o) ∧
               0 ≤ s ∧ _keys self !! Z.to_nat s = Some ks ∧ 0 ≤ o < Py.len ks) ∧
  (∀ i j loc, 0 ≤ i < num_samples self → 0 ≤ j < num_samples self →
     locate self i = ok loc → locate self j = ok loc → i = j) ∧
  (∀ s o ks, 0 ≤ s → _keys self !! Z.to_nat s = Some ks → 0 ≤ o < Py.len ks →
     ∃ idx, 0 ≤ idx < num_samples self ∧ locate self idx = ok (s, o)).
Proof.
  intros Hinit Hbound. apply init_inv in Hinit as (Hself & _).
  pose proof (keylens_nonneg self σ1 Hself) as Hpos.
  split; [|split].
  - intros idx Hidx.
    destruct (locate_inside self σ1 Hself Hbound idx Hidx)
      as (s & ks & _ & Hloc & Hks & _ & Hel).
    exists (Z.of_nat s), (idx - offset (_keylens self) s), ks.
    rewrite Nat2Z.id. split; [done|]. split; [lia|done].
  - intros i j loc Hi Hj Hli Hlj.
    destruct (locate_inside self σ1 Hself Hbound i Hi) as (s & ks & _ & Hloc & _).
    destruct (locate_inside self σ1 Hself Hbound j Hj) as (s' & ks' & _ & Hloc' & _).
    rewrite Hli in Hloc. rewrite Hlj in Hloc'. injection Hloc as ->.
    injection Hloc' as Hs Ho. apply Nat2Z.inj in Hs as ->. lia.
  - intros s o ks Hs Hks Ho.
    pose proof (offset_S _ _ _ (keylens_lookup self σ1 Hself _ _ Hks)) as HS.
    pose proof (offset_nonneg (_keylens self) (Z.to_nat s) Hpos) as H0.
    pose proof (offset_le_sum (_keylens self) (S (Z.to_nat s)) Hpos) as HN.
    rewrite <- (consistent_num_samples _ _ Hself) in HN.
    exists (offset (_keylens self) (Z.to_nat s) + o). split; [lia|].
    destruct (locate_inside self σ1 Hself Hbound (offset (_keylens self) (Z.to_nat s) + o))
      as (s' & ks' & _ & Hloc & Hks' & HS' & Hel); [lia|].
    assert (s' = Z.to_nat s) as ->.
    { destruct (Nat.lt_trichotomy s' (Z.to_nat s)) as [Hlt|[->|Hlt]]; [|done|].
      - pose proof (offset_mono (_keylens self) (S s') (Z.to_nat s) Hpos). lia.
      - pose proof (offset_mono (_keylens self) (S (Z.to_nat s)) s' Hpos). lia. }
    rewrite Hloc. rewrite Z2Nat.id by lia. do 2 f_equal. lia.
Qed.

Lemma resolution_bijection_witness :
  ∃ self σ1,
    __init__ Demo.single "data" None Demo.fresh_world = (ok self, σ1) ∧
    num_samples self < 2 ^ 63 ∧
    ∃ idx, 0 ≤ idx < num_samples self ∧ locate self idx = ok (1, 1).
Proof.
  eexists _, _. split; [reflexivity|]. split; [reflexivity|].
  edestruct (resolution_bijection Demo.single "data" None Demo.fresh_world)
    as (_ & _ & Honto); [reflexivity|reflexivity|].
  apply (Honto 1 1 [0; 1; 2]); [lia|reflexivity|done].
Defined.

(** C5. For a dataset built by [__init__] with [num_samples = N]:
    [__getitem__(N)], and every index at or beyond [N], raises
    [IndexError] (the handle list has no entry [len(envs)]);
    [__getitem__(-1)], and every negative index, is rejected by the
    assertion [el_idx >= 0]; and when [N > 0] and the records this rank
    owns are stored and decodable, [__getitem__(0)] and
    [__getitem__(N - 1)] return a record.  No access changes the world. *)
Theorem getitem_boundary E src tr σ0 self σ1 :
  __init__ E src tr σ0 = (ok self, σ1) →
  num_samples self < 2 ^ 63 →
  __getitem__ E self (num_samples self) σ1 = (raise IndexError, σ1) ∧
  __getitem__ E self (-1) σ1 = (raise AssertionError, σ1) ∧
  (∀ idx, num_samples self ≤ idx →
     __getitem__ E self idx σ1 = (raise IndexError, σ1)) ∧
  (∀ idx, idx < 0 →
     __getitem__ E self idx σ1 = (raise AssertionError, σ1)) ∧
  (0 < num_samples self → readable E self →
     (∃ d, __getitem__ E self 0 σ1 = (ok (PyData d), σ1)) ∧
     (∃ d, __getitem__ E self (num_samples self - 1) σ1 = (ok (PyData d), σ1))).
Proof.
  intros Hinit Hbound. apply init_inv in Hinit as (Hself & _).
  assert (∀ idx, num_samples self ≤ idx →
            __getitem__ E self idx σ1 = (raise IndexError, σ1)) as Hbeyond.
  { intros idx Hidx.
    rewrite (getitem_located _ _ _ _ _ (locate_beyond self σ1 Hself Hbound idx Hidx)).
    simpl. unfold fetch. apply bind_raise. unfold lift.
    rewrite index_beyond; [done|]. unfold Py.len.
    rewrite (consistent_envs _ _ Hself). lia. }
  assert (∀ idx, idx < 0 →
            __getitem__ E self idx σ1 = (raise AssertionError, σ1)) as Hnegative.
  { intros idx Hidx. apply getitem_raise. by eapply locate_negative. }
  split; [apply Hbeyond; lia|]. split; [apply Hnegative; lia|].
  split; [done|]. split; [done|].
  intros HN Hread.
  assert (∀ idx, 0 ≤ idx < num_samples self →
            ∃ d, __getitem__ E self idx σ1 = (ok (PyData d), σ1)) as Hinside.
  { intros idx Hidx.
    destruct (getitem_inside E self σ1 idx Hself Hbound Hidx)
      as (s & e & ks & k & _ & He & Hks & _ & Hk & ->).
    destruct (Hread s e ks k He Hks) as (b & v & d & -> & Hv & Hd).
    { by eapply list_elem_of_lookup_2. }
    rewrite (decode_readable E self _ _ b v d Hv Hd). eauto. }
  split; apply Hinside; lia.
Qed.

Lemma getitem_boundary_witness :
  ∃ self σ1,
    __init__ Demo.single "data" None Demo.fresh_world = (ok self, σ1) ∧
    num_samples self < 2 ^ 63 ∧ 0 < num_samples self ∧ readable Demo.single self ∧
    __getitem__ Demo.single self 8 σ1 = (raise IndexError, σ1) ∧
    __getitem__ Demo.single self (-1) σ1 = (raise AssertionError, σ1) ∧
    (∃ d, __getitem__ Demo.single self 0 σ1 = (ok (PyData d), σ1)) ∧
    (∃ d, __getitem__ Demo.single self 7 σ1 = (ok (PyData d), σ1)).
Proof.
  eexists _, _. split; [reflexivity|]. split; [reflexivity|]. split; [reflexivity|].
  match goal with |- ?R ∧ _ => assert R as Hread end.
  { intros s e ks k He Hks Hk.
    destruct s as [|[|s]]; vm_compute in He, Hks; [| |discriminate He];
      injection He as <-; injection Hks as <-;
      repeat (apply elem_of_cons in Hk as [->|Hk]);
      try (by apply elem_of_nil in Hk);
      eexists _, _, _; (split; [reflexivity|split; reflexivity]). }
  split; [exact Hread|].
  edestruct (getitem_boundary Demo.single "data" None Demo.fresh_world)
    as (Hat & Hminus & _ & _ & Hinside); [reflexivity|reflexivity|].
  destruct Hinside as [Hfirst Hlast]; [reflexivity|exact Hread|].
  split; [exact Hat|]. split; [exact Hminus|]. split; [exact Hfirst|exact Hlast].
Defined.

(** C10. For a dataset built by [__init__] and every [idx] with
    [0 <= idx < num_samples], the key list of the located shard is not
    empty and [0 <= el_idx < len(_keys[db_idx])], so both list lookups of
    [__getitem__] are in bounds; a shard with an empty key list is never
    the one located. *)
Theorem getitem_lookup_in_bounds E src tr σ0 self σ1 idx :
  __init__ E src tr σ0 = (ok self, σ1) →
  num_samples self < 2 ^ 63 →
  0 ≤ idx < num_samples self →
  ∃ (db_idx el_idx : Z) (ks : list Z) (k : Z),
    locate self idx = ok (db_idx, el_idx) ∧
    Py.index (_keys self) db_idx = ok ks ∧
    ks ≠ [] ∧ 0 ≤ el_idx < Py.len ks ∧
    Py.index ks el_idx = ok k ∧
    (∀ s : nat, _keys self !! s = Some [] → db_idx ≠ Z.of_nat s).
Proof.
  intros Hinit Hbound Hidx. apply init_inv in Hinit as (Hself & _).
  destruct (locate_inside self σ1 Hself Hbound idx Hidx)
    as (s & ks & _ & Hloc & Hks & _ & Hel).
  destruct (index_inside ks (idx - offset (_keylens self) s) Hel) as (k & _ & Hk).
  exists (Z.of_nat s), (idx - offset (_keylens self) s), ks, k.
  split; [done|]. split; [apply index_lookup; [lia|by rewrite Nat2Z.id]|].
  assert (ks ≠ []) as Hne by (intros ->; unfold Py.len in Hel; simpl in Hel; lia).
  split; [done|]. split; [done|]. split; [done|].
  intros s' Hs' Heq. apply Nat2Z.inj in Heq as <-. congruence.
Qed.

Lemma getitem_lookup_in_bounds_witness :
  ∃ self σ1,
    __init__ (Demo.short_shared 1) "data" None Demo.fresh_world = (ok self, σ1) ∧
    _keys self = [[0; 1; 2]; []] ∧
    num_samples self < 2 ^ 63 ∧ 0 ≤ 2 < num_samples self ∧
    ∃ db_idx el_idx ks k,
      locate self 2 = ok (db_idx, el_idx) ∧ Py.index (_keys self) db_idx = ok ks ∧
      ks ≠ [] ∧ Py.index ks el_idx = ok k ∧ db_idx ≠ 1.
Proof.
  eexists _, _. split; [reflexivity|]. split; [reflexivity|].
  split; [reflexivity|]. split; [done|].
  edestruct (getitem_lookup_in_bounds (Demo.short_shared 1) "data" None
               Demo.fresh_world) with (idx := 2)
    as (db_idx & el_idx & ks & k & Hloc & Hks & Hne & _ & Hk & Hskip);
    [reflexivity|reflexivity|done|].
  exists db_idx, el_idx, ks, k.
  split; [exact Hloc|]. split; [exact Hks|]. split; [exact Hne|]. split; [exact Hk|].
  exact (Hskip 1%nat eq_refl).
Defined.

(** *** Running the constructor forward *)


Lemma open_db_ok E keys_of p st σ db b v ks :
  lmdb_files E !! p = Some db → db !! "length" = Some b →
  pickle_loads E b = ok v → keys_of v = ok ks →
  open_db E keys_of p st σ =
    (ok (st.1 ++ [ks], st.2 ++ [{| env_handle := next_handle σ; env_db := db |}]),
     after_open σ).
Proof.
  intros Hdb Hb Hv Hks. unfold open_db, connect_db.
  erewrite bind_ok; [|unfold lmdb_open; by rewrite Hdb].
  erewrite bind_ok.
  2:{ unfold read_length. rewrite index_last.
      erewrite bind_ok; [|done].
      erewrite bind_ok; [|unfold env_begin; simpl; rewrite decide_True by set_solver; done].
      unfold lift, loads, txn_get. simpl. rewrite Hb, Hv. done. }
  erewrite bind_ok; [|unfold lift; by rewrite Hks]. done.
Qed.

Lemma open_db_malformed E keys_of p st σ db :
  lmdb_files E !! p = Some db → malformed E db →
  ∃ e, open_db E keys_of p st σ = (raise e, after_open σ) ∧
       (db !! "length" = None → e = TypeError) ∧
       (∀ b e', db !! "length" = Some b → pickle_loads E b = raise e' → e = e').
Proof.
  intros Hdb Hbad. unfold open_db, connect_db.
  erewrite bind_ok; [|unfold lmdb_open; by rewrite Hdb].
  assert (∃ e, loads E (db !! "length") = raise e ∧
               (db !! "length" = None → e = TypeError) ∧
               (∀ b e', db !! "length" = Some b → pickle_loads E b = raise e' → e = e'))
    as (e & He & Habsent & Hgarbled).
  { destruct Hbad as [Hnone|(b & e & Hb & He)].
    - exists TypeError. rewrite Hnone. split; [done|]. split; [done|]. congruence.
    - exists e. rewrite Hb. simpl. split; [done|]. split; [congruence|].
      intros b' e' [= <-] He'. unfold raise in *. congruence. }
  exists e. split; [|done]. apply bind_raise.
  unfold read_length. rewrite index_last.
  erewrite bind_ok; [|done].
  erewrite bind_ok; [|unfold env_begin; simpl; rewrite decide_True by set_solver; done].
  unfold lift, txn_get. simpl. by rewrite He.
Qed.

(** ** Construction and teardown *)

(** C8. Let [p] be one of the files this rank opens, and let the
    ["length"] entry of its database be absent or fail to unpickle.
    Then [__init__] ends in an exception and returns no dataset.  At
    [p] itself the loop body raises, after the file was opened: the
    [TypeError] of [pickle.loads(None)] when the entry is absent, the
    exception of [pickle.loads] when the bytes do not unpickle. *)
Theorem malformed_shard_aborts E src tr σ0 full shared p db :
  partition_paths (world_size E) (rank E) (sorted_glob E src) = ok (full, shared) →
  p ∈ full ++ shared →
  lmdb_files E !! p = Some db →
  malformed E db →
  (∃ e σ1, __init__ E src tr σ0 = (raise e, σ1)) ∧
  (∀ keys_of st σ, ∃ e,
     open_db E keys_of p st σ = (raise e, after_open σ) ∧
     (db !! "length" = None → e = TypeError) ∧
     (∀ b e', db !! "length" = Some b → pickle_loads E b = raise e' → e = e')).
Proof.
  intros Hpart Hp Hdb Hbad. split; [|intros; by apply open_db_malformed].
  destruct (__init__ E src tr σ0) as [[e|self] σ1] eqn:Hinit; [by eauto|].
  apply init_inv in Hinit
    as (_ & _ & _ & full' & shared' & kss1 & kss2 & es1 & es2 & Hpart' & _ & _ & _ & H1 & H2).
  rewrite Hpart in Hpart'. injection Hpart' as <- <-.
  assert (∃ keys_of ks e, opened E keys_of p ks e) as (keys_of & ks & e & Hopened).
  { apply elem_of_app in Hp as [Hp|Hp]; apply list_elem_of_lookup in Hp as [i Hi].
    - destruct (Forall3_lookup_l _ _ _ _ _ _ H1 Hi) as (ks & e & _ & _ & Ho). eauto.
    - destruct (Forall3_lookup_l _ _ _ _ _ _ H2 Hi) as (ks & e & _ & _ & Ho). eauto. }
  destruct Hopened as (db' & b & v & Hdb' & _ & Hb & Hv & _).
  assert (db' = db) as -> by congruence.
  destruct Hbad as [Hnone|(b' & e' & Hb' & He')]; [congruence|].
  assert (b' = b) as -> by congruence. unfold ok, raise in *. congruence.
Qed.

Lemma malformed_shard_aborts_witness :
  partition_paths 1 0 ["a.lmdb"; "x.lmdb"] = ok (["a.lmdb"; "x.lmdb"], []) ∧
  malformed (Demo.deployment 1 0 ["a.lmdb"; "x.lmdb"]) (Demo.headless_shard 4) ∧
  ∃ e σ1, __init__ (Demo.deployment 1 0 ["a.lmdb"; "x.lmdb"]) "data" None
            Demo.fresh_world = (raise e, σ1).
Proof.
  assert (malformed (Demo.deployment 1 0 ["a.lmdb"; "x.lmdb"]) (Demo.headless_shard 4))
    as Hbad by (left; reflexivity).
  split; [reflexivity|]. split; [exact Hbad|].
  apply (malformed_shard_aborts (Demo.deployment 1 0 ["a.lmdb"; "x.lmdb"]) "data" None
           Demo.fresh_world ["a.lmdb"; "x.lmdb"] [] "x.lmdb" (Demo.headless_shard 4));
    [reflexivity| |reflexivity|exact Hbad].
  apply elem_of_app. left. apply elem_of_cons. right. apply elem_of_cons. by left.
Defined.

(** C7 (what the code does).  After a successful [__init__], which
    holds one handle per opened file in [self.envs], [close_db] raises
    [AttributeError] on [self.env] and leaves the world as it was: every
    handle of [self.envs] is still open. *)
Theorem close_db_releases_nothing E src tr σ0 self σ1 :
  __init__ E src tr σ0 = (ok self, σ1) →
  close_db self σ1 = (raise AttributeError, σ1) ∧
  length (envs self) = length (db_paths self) ∧
  ∀ e, e ∈ envs self → env_handle e ∈ open_handles (close_db self σ1).2.
Proof.
  intros Hinit.
  assert (close_db self σ1 = (raise AttributeError, σ1)) as Hclose by done.
  rewrite Hclose. split; [done|].
  apply init_inv in Hinit
    as (Hself & _ & _ & full & shared & kss1 & kss2 & es1 & es2 & _ & Hp & _ & He & H1 & H2).
  split; [|apply (consistent_open _ _ Hself)].
  rewrite Hp, He, !length_app.
  apply Forall3_length_lr in H1. apply Forall3_length_lr in H2. lia.
Qed.

Lemma close_db_releases_nothing_witness :
  ∃ self σ1,
    __init__ Demo.single "data" None Demo.fresh_world = (ok self, σ1) ∧
    close_db self σ1 = (raise AttributeError, σ1) ∧
    length (envs self) = 2%nat ∧ open_handles σ1 = {[1%nat; 0%nat]}.
Proof.
  eexists _, _. split; [reflexivity|].
  edestruct (close_db_releases_nothing Demo.single "data" None Demo.fresh_world)
    as (Hclose & _ & _); [reflexivity|].
  split; [exact Hclose|]. split; [reflexivity|]. vm_compute. reflexivity.
Defined.

(** *** The files of each rank *)

Section partition.
Context (paths : list string) (w : Z) (Hw : 1 ≤ w).

Let num_full := Py.len paths - Py.len paths `mod` w.
Let q := Py.len paths `div` w.

Lemma num_full_div : num_full `div` w = q.
Proof.
  subst num_full q. rewrite (num_full_stride paths w Hw).
  rewrite Z.mul_comm, Z.div_mul; [done|lia].
Qed.

Lemma partition_paths_stride (r : Z) :
  0 ≤ r < w →
  ∃ mine, partition_paths w r paths = ok (mine, drop (Z.to_nat num_full) paths) ∧
          Py.len mine = q ∧
          ∀ i : nat, Z.of_nat i < q →
            mine !! i = paths !! Z.to_nat (r + Z.of_nat i * w).
Proof.
  intros Hr. destruct (slice_stride paths w Hw r Hr) as (mine & Hslice & Hlen & Hlook).
  exists mine. split; [|done].
  unfold partition_paths, Py.mod_. rewrite decide_False by lia. simpl.
  rewrite Hslice. simpl. rewrite slice_from_drop by done.
  subst num_full. by rewrite (num_full_stride paths w Hw).
Qed.

Lemma elem_of_mine (r : Z) (mine shared : list string) (p : string) :
  0 ≤ r < w → partition_paths w r paths = ok (mine, shared) →
  p ∈ mine ↔ ∃ i : nat, Z.of_nat i < q ∧ paths !! Z.to_nat (r + Z.of_nat i * w) = Some p.
Proof.
  intros Hr Hpart.
  destruct (partition_paths_stride r Hr) as (mine' & Hpart' & Hlen & Hlook).
  rewrite Hpart in Hpart'. injection Hpart' as <- _.
  rewrite list_elem_of_lookup. split; intros (i & Hi).
  - exists i. pose proof (lookup_lt_Some _ _ _ Hi) as Hlt.
    unfold Py.len in Hlen. split; [lia|]. rewrite <- Hlook by lia. done.
  - exists i. destruct Hi as [Hi Hp]. by rewrite Hlook.
Qed.

End partition.

(** C4. Let [w >= 1] and let [paths] be a duplicate-free list of [n]
    files, [num_full = n - n mod w].  (1) Rank [r] reads alone the files
    [paths[r], paths[r + w], ...] below [num_full], [num_full / w] of
    them; (2) the lists of two different ranks share no file; (3) a file
    is among the first [num_full] exactly when some rank [r < w] reads it
    alone; (4) in a dataset built by [__init__], the key list of the
    [i]-th such file is [0, 1, ..., declared - 1], [declared] being the
    unpickled ["length"] entry of the file. *)
Theorem exclusive_shards_partition (paths : list string) (w : Z) :
  1 ≤ w → NoDup paths →
  let num_full := Py.len paths - Py.len paths `mod` w in
  (∀ r, 0 ≤ r < w →
     ∃ mine shared, partition_paths w r paths = ok (mine, shared) ∧
       Py.len mine = num_full `div` w ∧
       ∀ i : nat, Z.of_nat i < num_full `div` w →
         mine !! i = paths !! Z.to_nat (r + Z.of_nat i * w)) ∧
  (∀ r1 r2 mine1 mine2 shared1 shared2 p,
     0 ≤ r1 < w → 0 ≤ r2 < w → r1 ≠ r2 →
     partition_paths w r1 paths = ok (mine1, shared1) →
     partition_paths w r2 paths = ok (mine2, shared2) →
     p ∈ mine1 → p ∉ mine2) ∧
  (∀ p, p ∈ take (Z.to_nat num_full) paths ↔
        ∃ r mine shared, 0 ≤ r < w ∧ partition_paths w r paths = ok (mine, shared) ∧
                         p ∈ mine) ∧
  (∀ E src tr σ0 self σ1 mine shared,
     world_size E = w → sorted_glob E src = paths →
     __init__ E src tr σ0 = (ok self, σ1) →
     partition_paths w (rank E) paths = ok (mine, shared) →
     ∀ (i : nat) (p : string), mine !! i = Some p →
       ∃ db b declared,
         lmdb_files E !! p = Some db ∧ db !! "length" = Some b ∧
         pickle_loads E b = ok (PyInt declared) ∧
         _keys self !! i = Some (seqZ 0 declared)).
Proof.
  intros Hw Hnodup num_full.
  pose proof (num_full_div paths w Hw) as Hq. fold num_full in Hq.
  pose proof (num_full_stride paths w Hw) as Hnf. fold num_full in Hnf.
  pose proof (num_full_bounds paths w Hw) as (Hnf_range & Hq0 & _).
  split; [|split; [|split]].
  - intros r Hr. destruct (partition_paths_stride paths w Hw r Hr) as (mine & Hpart & Hlen & Hlook).
    exists mine, (drop (Z.to_nat num_full) paths). rewrite Hq. done.
  - intros r1 r2 mine1 mine2 shared1 shared2 p Hr1 Hr2 Hne Hp1 Hp2 Hin1 Hin2.
    apply (elem_of_mine paths w Hw r1 _ _ p Hr1 Hp1) in Hin1 as (i1 & Hi1 & Hl1).
    apply (elem_of_mine paths w Hw r2 _ _ p Hr2 Hp2) in Hin2 as (i2 & Hi2 & Hl2).
    pose proof (NoDup_lookup _ _ _ _ Hnodup Hl1 Hl2) as Heq.
    assert (0 ≤ Z.of_nat i1 * w ∧ 0 ≤ Z.of_nat i2 * w) as [Hm1 Hm2] by nia.
    assert (r1 + Z.of_nat i1 * w = r2 + Z.of_nat i2 * w) as Heq'
      by (clear -Heq Hm1 Hm2 Hr1 Hr2; lia).
    assert (r1 = r2); [|done].
    assert (Z.of_nat i1 = Z.of_nat i2) by nia. lia.
  - intros p. rewrite elem_of_take. split.
    + intros (j & Hj & Hlt).
      pose proof (Z.div_mod (Z.of_nat j) w) as Hdm.
      assert (0 ≤ Z.of_nat j `mod` w < w) as Hmod by (apply Z.mod_pos_bound; lia).
      assert (0 ≤ Z.of_nat j `div` w) as Hdiv by (apply Z.div_pos; lia).
      destruct (partition_paths_stride paths w Hw (Z.of_nat j `mod` w) Hmod)
        as (mine & Hpart & Hlen & Hlook).
      exists (Z.of_nat j `mod` w), mine, (drop (Z.to_nat num_full) paths).
      split; [done|]. split; [done|].
      apply (elem_of_mine paths w Hw _ _ _ p Hmod Hpart).
      exists (Z.to_nat (Z.of_nat j `div` w)). rewrite Z2Nat.id by lia. split.
      * apply Z.div_lt_upper_bound; lia.
      * replace (Z.to_nat (Z.of_nat j `mod` w + Z.of_nat j `div` w * w)) with j by lia. done.
    + intros (r & mine & shared & Hr & Hpart & Hin).
      apply (elem_of_mine paths w Hw r _ _ p Hr Hpart) in Hin as (i & Hi & Hl).
      eexists. split; [exact Hl|]. nia.
  - intros E src tr σ0 self σ1 mine shared HwE Hglob Hinit Hpart i p Hp.
    apply init_inv in Hinit
      as (_ & _ & _ & full' & shared' & kss1 & kss2 & es1 & es2 & Hpart' & _ & Hkeys & _ & H1 & _).
    rewrite HwE, Hglob, Hpart in Hpart'. injection Hpart' as <- <-.
    destruct (Forall3_lookup_l _ _ _ _ _ _ H1 Hp) as (ks & e & Hks & _ & Ho).
    destruct Ho as (db & b & v & Hdb & _ & Hb & Hv & Hkeys_of).
    destruct v as [declared| |]; try discriminate.
    rewrite full_keys_range in Hkeys_of. injection Hkeys_of as <-.
    exists db, b, declared. split; [done|]. split; [done|]. split; [done|].
    rewrite Hkeys. by apply lookup_app_l_Some.
Qed.

Lemma exclusive_shards_partition_witness :
  1 ≤ 3 ∧ NoDup ["a.lmdb"; "b.lmdb"; "c.lmdb"; "d.lmdb"] ∧
  ∃ mine shared,
    partition_paths 3 1 ["a.lmdb"; "b.lmdb"; "c.lmdb"; "d.lmdb"] = ok (mine, shared) ∧
    Py.len mine = 1 ∧ mine !! 0%nat = Some "b.lmdb".
Proof.
  assert (NoDup ["a.lmdb"; "b.lmdb"; "c.lmdb"; "d.lmdb"]) as Hnodup.
  { apply (bool_decide_unpack _). vm_compute. exact I. }
  split; [lia|]. split; [exact Hnodup|].
  destruct (exclusive_shards_partition ["a.lmdb"; "b.lmdb"; "c.lmdb"; "d.lmdb"] 3
              ltac:(lia) Hnodup) as (Hmine & _).
  destruct (Hmine 1 ltac:(lia)) as (mine & shared & Hpart & Hlen & Hlook).
  exists mine, shared. split; [exact Hpart|]. split; [exact Hlen|].
  rewrite (Hlook 0%nat); [reflexivity|reflexivity].
Defined.




(** ** Records *)



(** *** Collation *)

Lemma count_neighbors_ok E d row acc σ :
  second_row E d row →
  count_neighbors E d acc σ = (ok (acc ++ [Py.len row]), σ).
Proof.
  intros (rows & Hrows & Hrow). unfold count_neighbors.
  erewrite bind_ok; [|unfold lift; by rewrite Hrows].
  erewrite bind_ok; [|unfold lift; by rewrite (index_lookup rows 1 row)].
  done.
Qed.

Lemma count_all_neighbors E data_list acc σ :
  (∀ d, d ∈ data_list → ∃ row, second_row E d row) →
  ∃ counts, for_each (count_neighbors E) data_list acc σ = (ok (acc ++ counts), σ) ∧
            Forall2 (λ d n, ∀ row, second_row E d row → n = Py.len row) data_list counts.
Proof.
  revert acc. induction data_list as [|d l IH]; intros acc Hall.
  - exists []. rewrite app_nil_r. split; [done|constructor].
  - destruct (Hall d) as [row Hrow]; [left|].
    destruct (IH (acc ++ [Py.len row])) as (counts & Hrun & Hcounts).
    { intros d' Hd'. apply Hall. by right. }
    exists (Py.len row :: counts). split.
    + simpl. erewrite bind_ok; [|by apply count_neighbors_ok].
      rewrite Hrun. by rewrite <- app_assoc.
    + constructor; [|done]. intros row' (rows' & Hrows' & Hrow').
      destruct Hrow as (rows & Hrows & Hrow). rewrite Hrows in Hrows'.
      injection Hrows' as <-. congruence.
Qed.

Lemma for_each_app {A S} (body : A → S → M S) (l1 l2 : list A) (s : S) σ :
  for_each body (l1 ++ l2) s σ = (for_each body l1 s ≫= for_each body l2) σ.
Proof.
  revert s σ. induction l1 as [|x l1 IH]; intros s σ; simpl; [done|].
  unfold mbind, M_bind in *. destruct (body x s σ) as [[e|s'] σ']; [done|]. apply IH.
Qed.

Lemma count_neighbors_raises E d e acc σ :
  no_second_row E d e → count_neighbors E d acc σ = (raise e, σ).
Proof.
  intros [Hd|(rows & Hrows & Hrow & ->)]; unfold count_neighbors.
  - apply bind_raise. unfold lift. by rewrite Hd.
  - erewrite bind_ok; [|unfold lift; by rewrite Hrows].
    apply bind_raise. unfold lift. rewrite index_beyond; [done|].
    apply lookup_ge_None in Hrow. unfold Py.len. lia.
Qed.





(** * Further properties *)

(** ** What the operations leave alone *)

Lemma only_opened_refl σ : only_opened σ σ.
Proof. done. Qed.

Lemma only_opened_trans σ1 σ2 σ3 :
  only_opened σ1 σ2 → only_opened σ2 σ3 → only_opened σ1 σ3.
Proof.
  intros (Ho1 & Hn1 & Hs1) (Ho2 & Hn2 & Hs2).
  split; [by etrans|]. split; [lia|congruence].
Qed.

Lemma bind_only_opened {A B} (m : M A) (k : A → M B) σ :
  only_opened σ (m σ).2 → (∀ a σ', only_opened σ' (k a σ').2) →
  only_opened σ ((m ≫= k) σ).2.
Proof.
  intros Hm Hk. unfold mbind, M_bind. destruct (m σ) as [[e|a] σ']; simpl in *; [done|].
  eapply only_opened_trans; [done|apply Hk].
Qed.

Lemma lift_only_opened {A} (r : result A) σ : only_opened σ (lift r σ).2.
Proof. done. Qed.

Lemma connect_db_only_opened E p σ : only_opened σ (connect_db E p σ).2.
Proof.
  unfold connect_db, lmdb_open, only_opened.
  destruct (lmdb_files E !! p); simpl; [|done].
  split; [apply union_subseteq_r|]. split; [lia|done].
Qed.

Lemma env_begin_only_opened e σ : only_opened σ (env_begin e σ).2.
Proof. unfold env_begin. by case_decide. Qed.

Lemma open_db_only_opened E keys_of p st σ :
  only_opened σ (open_db E keys_of p st σ).2.
Proof.
  unfold open_db. apply bind_only_opened; [apply connect_db_only_opened|].
  intros e σ1. apply bind_only_opened.
  - unfold read_length. apply bind_only_opened; [apply lift_only_opened|].
    intros e' σ2. apply bind_only_opened; [apply env_begin_only_opened|].
    intros _ σ3. apply lift_only_opened.
  - intros v σ2. apply bind_only_opened; [apply lift_only_opened|]. by intros.
Qed.

Lemma for_each_only_opened {A S} (body : A → S → M S) (l : list A) (s : S) σ :
  (∀ x s σ, only_opened σ (body x s σ).2) →
  only_opened σ (for_each body l s σ).2.
Proof.
  intros Hbody. revert s σ. induction l as [|x l IH]; intros s σ; simpl; [done|].
  apply bind_only_opened; [apply Hbody|]. intros s' σ'. apply IH.
Qed.

(** [__init__] never closes an environment and never prints, whether it
    returns a dataset or raises. *)
Theorem init_opens_only E src tr σ : only_opened σ (__init__ E src tr σ).2.
Proof.
  unfold __init__. case_decide; [|done].
  apply bind_only_opened; [apply lift_only_opened|]. intros [full shared] σ1.
  apply bind_only_opened.
  { apply for_each_only_opened. intros. apply open_db_only_opened. }
  intros st σ2. apply bind_only_opened.
  { apply for_each_only_opened. intros. apply open_db_only_opened. }
  by intros.
Qed.

(** [__getitem__] leaves the world as it found it, whether it returns a
    record or raises: no environment is opened or closed and nothing is
    printed. *)
Theorem getitem_leaves_world E self idx σ : (__getitem__ E self idx σ).2 = σ.
Proof.
  unfold __getitem__, fetch, mbind, M_bind, lift, env_begin.
  destruct (locate self idx) as [e|[db_idx el_idx]]; simpl; [done|].
  destruct (Py.index (envs self) db_idx) as [?|e]; [done|].
  case_decide; [|done].
  destruct (Py.index (_keys self) db_idx) as [?|ks]; [done|].
  destruct (Py.index ks el_idx) as [?|k]; done.
Qed.

(** ** When construction succeeds *)

Lemma shared_keys_int w r n : w ≠ 0 → ∃ ks, shared_keys w r (PyInt n) = ok ks.
Proof.
  intros Hw. unfold shared_keys, Py.mod_. rewrite decide_False by done. simpl.
  unfold Py.range. rewrite decide_False by done. eauto.
Qed.

Lemma full_keys_inv v ks : full_keys v = ok ks → ∃ n, v = PyInt n.
Proof. destruct v; try discriminate. eauto. Qed.

Lemma shared_keys_inv w r v ks : shared_keys w r v = ok ks → ∃ n, v = PyInt n ∧ w ≠ 0.
Proof.
  destruct v as [n| |]; try discriminate. unfold shared_keys, Py.mod_.
  case_decide; [discriminate|]. eauto.
Qed.

Lemma partition_paths_ok_iff w r paths :
  (∃ full shared, partition_paths w r paths = ok (full, shared)) ↔ w ≠ 0.
Proof.
  unfold partition_paths, Py.mod_, Py.slice. split.
  - intros (full & shared & H). case_decide; [discriminate|done].
  - intros Hw. rewrite decide_False by done. simpl. rewrite decide_False by done.
    simpl. eauto.
Qed.

Lemma for_each_open_db_ok E keys_of ps st σ :
  (∀ p, p ∈ ps → ∃ db b v ks, lmdb_files E !! p = Some db ∧ db !! "length" = Some b ∧
                              pickle_loads E b = ok v ∧ keys_of v = ok ks) →
  ∃ st' σ', for_each (open_db E keys_of) ps st σ = (ok st', σ').
Proof.
  revert st σ. induction ps as [|p ps IH]; intros st σ Hall; simpl; [by eauto|].
  destruct (Hall p) as (db & b & v & ks & Hdb & Hb & Hv & Hks); [left|].
  erewrite bind_ok; [|by eapply open_db_ok].
  apply IH. intros p' Hp'. apply Hall. by right.
Qed.

(** [__init__] returns a dataset exactly when the listing is not empty,
    the world size is not zero, and every file this rank is to open
    exists and has a ["length"] entry that unpickles to an integer. *)
Theorem init_succeeds_iff E src tr σ0 :
  (∃ self σ1, __init__ E src tr σ0 = (ok self, σ1)) ↔
  sorted_glob E src ≠ [] ∧
  ∃ full shared,
    partition_paths (world_size E) (rank E) (sorted_glob E src) = ok (full, shared) ∧
    ∀ p, p ∈ full ++ shared →
      ∃ db b n, lmdb_files E !! p = Some db ∧ db !! "length" = Some b ∧
                pickle_loads E b = ok (PyInt n).
Proof.
  split.
  - intros (self & σ1 & Hinit).
    assert (sorted_glob E src ≠ []) as Hne.
    { intros Hnil. unfold __init__ in Hinit. rewrite Hnil in Hinit.
      rewrite decide_False in Hinit by (unfold Py.len; simpl; lia). discriminate. }
    split; [done|].
    apply init_inv in Hinit
      as (_ & _ & _ & full & shared & kss1 & kss2 & es1 & es2 & Hpart & _ & _ & _ & H1 & H2).
    exists full, shared. split; [done|].
    intros p [Hp|Hp]%elem_of_app; apply list_elem_of_lookup in Hp as [i Hi].
    + destruct (Forall3_lookup_l _ _ _ _ _ _ H1 Hi) as (ks & e & _ & _ & Ho).
      destruct Ho as (db & b & v & Hdb & _ & Hb & Hv & Hks).
      apply full_keys_inv in Hks as [n ->]. eauto 10.
    + destruct (Forall3_lookup_l _ _ _ _ _ _ H2 Hi) as (ks & e & _ & _ & Ho).
      destruct Ho as (db & b & v & Hdb & _ & Hb & Hv & Hks).
      apply shared_keys_inv in Hks as (n & -> & _). eauto 10.
  - intros (Hne & full & shared & Hpart & Hall).
    assert (world_size E ≠ 0) as Hw.
    { eapply (proj1 (partition_paths_ok_iff _ _ _)). eauto. }
    unfold __init__. rewrite decide_True.
    2:{ unfold Py.len. destruct (sorted_glob E src); [done|simpl; lia]. }
    erewrite bind_ok; [|unfold lift; by rewrite Hpart]. simpl.
    destruct (for_each_open_db_ok E full_keys full ([], []) σ0) as (st1 & σ1 & H1).
    { intros p Hp. destruct (Hall p) as (db & b & n & Hdb & Hb & Hn).
      { apply elem_of_app. by left. }
      exists db, b, (PyInt n). eexists. rewrite full_keys_range. done. }
    erewrite bind_ok by exact H1.
    destruct (for_each_open_db_ok E (shared_keys (world_size E) (rank E)) shared st1 σ1)
      as (st2 & σ2 & H2).
    { intros p Hp. destruct (Hall p) as (db & b & n & Hdb & Hb & Hn).
      { apply elem_of_app. by right. }
      destruct (shared_keys_int (world_size E) (rank E) n Hw) as [ks Hks].
      exists db, b, (PyInt n), ks. done. }
    erewrite bind_ok by exact H2. eauto.
Qed.

(** When the first file this rank opens has no usable ["length"] entry,
    [__init__] raises with that file's environment already opened, and
    leaves it open: the world is [after_open σ0] and no dataset holds the
    handle. *)
Theorem init_failure_keeps_handle E src tr σ0 full shared p rest db :
  sorted_glob E src ≠ [] →
  partition_paths (world_size E) (rank E) (sorted_glob E src) = ok (full, shared) →
  full ++ shared = p :: rest →
  lmdb_files E !! p = Some db →
  malformed E db →
  ∃ e, __init__ E src tr σ0 = (raise e, after_open σ0) ∧
       next_handle σ0 ∈ open_handles (after_open σ0).
Proof.
  intros Hne Hpart Hhead Hdb Hbad.
  assert (∀ keys_of st, ∃ e, open_db E keys_of p st σ0 = (raise e, after_open σ0)) as Hopen.
  { intros keys_of st.
    destruct (open_db_malformed E keys_of p st σ0 db Hdb Hbad) as (e & He & _). eauto. }
  unfold __init__. rewrite decide_True.
  2:{ unfold Py.len. destruct (sorted_glob E src); [done|simpl; lia]. }
  erewrite bind_ok; [|unfold lift; by rewrite Hpart]. simpl.
  destruct full as [|p' full].
  - simpl in Hhead. subst shared. simpl.
    destruct (Hopen (shared_keys (world_size E) (rank E)) ([], [])) as [e He].
    exists e. split; [|apply elem_of_union_l, elem_of_singleton_2; done].
    erewrite bind_ok by reflexivity.
    apply bind_raise. simpl. by apply bind_raise.
  - injection Hhead as -> _.
    destruct (Hopen full_keys ([], [])) as [e He].
    exists e. split; [|apply elem_of_union_l, elem_of_singleton_2; done].
    apply bind_raise. simpl. by apply bind_raise.
Qed.

Lemma init_failure_keeps_handle_witness :
  ∃ e, __init__ (Demo.deployment 1 0 ["x.lmdb"; "a.lmdb"]) "data" None Demo.fresh_world =
         (raise e, after_open Demo.fresh_world) ∧
       0%nat ∈ open_handles (after_open Demo.fresh_world).
Proof.
  apply (init_failure_keeps_handle (Demo.deployment 1 0 ["x.lmdb"; "a.lmdb"]) "data" None
           Demo.fresh_world ["x.lmdb"; "a.lmdb"] [] "x.lmdb" ["a.lmdb"]
           (Demo.headless_shard 4));
    [discriminate|reflexivity|reflexivity|reflexivity|left; reflexivity].
Defined.

(** ** The handles of a dataset *)

Lemma for_each_open_db_trace E keys_of ps st σ st' σ' :
  for_each (open_db E keys_of) ps st σ = (ok st', σ') →
  ∃ es, st'.2 = st.2 ++ es ∧
        env_handle <$> es = seq (next_handle σ) (length ps) ∧
        next_handle σ' = (next_handle σ + length ps)%nat ∧
        open_handles σ' = list_to_set (seq (next_handle σ) (length ps)) ∪ open_handles σ ∧
        Forall2 (λ p e, lmdb_files E !! p = Some (env_db e)) ps es.
Proof.
  revert st σ. induction ps as [|p ps IH]; intros st σ H; simpl in H.
  - injection H as <- <-. exists []. rewrite app_nil_r, Nat.add_0_r. simpl.
    split; [done|]. split; [done|]. split; [done|]. split; [|constructor].
    by rewrite union_empty_l_L.
  - apply bind_ok_inv in H as (st1 & σ1 & Hstep & H).
    apply open_db_inv in Hstep as (ks & e & -> & Hopened & He & Hopen & Hnext & _).
    apply IH in H as (es & Hes & Hhandles & Hnext' & Hopen' & Hdbs). simpl in *.
    exists (e :: es). rewrite <- app_assoc in Hes. split; [done|].
    rewrite Hnext in Hhandles, Hnext', Hopen'.
    split; [by rewrite fmap_cons, He, Hhandles|]. split; [lia|]. split.
    + rewrite Hopen', Hopen. simpl. rewrite !(assoc_L (∪)).
      f_equal. apply (comm_L (∪)).
    + constructor; [|done]. destruct Hopened as (db & b & v & Hdb & <- & _). done.
Qed.

(** A dataset built by [__init__] holds one environment per file of
    [db_paths], in the same order: the [i]-th environment reads the
    database of the [i]-th path, and its handle is the [i]-th one
    allocated since the constructor started, so no two environments
    share a handle and all of them are open. *)
Theorem init_handles_in_order E src tr σ0 self σ1 :
  __init__ E src tr σ0 = (ok self, σ1) →
  Forall2 (λ p e, lmdb_files E !! p = Some (env_db e)) (db_paths self) (envs self) ∧
  env_handle <$> envs self = seq (next_handle σ0) (length (db_paths self)) ∧
  NoDup (env_handle <$> envs self) ∧
  next_handle σ1 = (next_handle σ0 + length (db_paths self))%nat ∧
  open_handles σ1 = list_to_set (env_handle <$> envs self) ∪ open_handles σ0.
Proof.
  unfold __init__. intros H. case_decide as Hlen; [|discriminate].
  apply bind_ok_inv in H as ([full shared] & σ & Hpart & H).
  apply lift_ok_inv in Hpart as [Hpart ->].
  apply bind_ok_inv in H as (st1 & σ2 & Hfull & H).
  apply bind_ok_inv in H as (st2 & σ3 & Hshared & H).
  injection H as <- <-. simpl.
  apply for_each_open_db_trace in Hfull as (es1 & Hes1 & Hh1 & Hn1 & Ho1 & Hd1).
  apply for_each_open_db_trace in Hshared as (es2 & Hes2 & Hh2 & Hn2 & Ho2 & Hd2).
  simpl in Hes1. rewrite Hes2, Hes1. rewrite Hn1 in Hh2, Hn2, Ho2.
  assert (env_handle <$> es1 ++ es2 =
          seq (next_handle σ0) (length (full ++ shared))) as Hhandles.
  { rewrite fmap_app, Hh1, Hh2, length_app, seq_app. done. }
  split; [by apply Forall2_app|]. split; [done|].
  split; [rewrite Hhandles; apply NoDup_seq|].
  split; [rewrite Hn2, length_app; lia|].
  rewrite Ho2, Ho1, Hhandles, length_app, seq_app, list_to_set_app_L, !(assoc_L (∪)).
  f_equal. apply (comm_L (∪)).
Qed.

Lemma init_handles_in_order_witness :
  ∃ self σ1,
    __init__ Demo.single "data" None Demo.fresh_world = (ok self, σ1) ∧
    env_handle <$> envs self = [0; 1]%nat ∧ next_handle σ1 = 2%nat.
Proof.
  eexists _, _. split; [reflexivity|].
  edestruct (init_handles_in_order Demo.single "data" None Demo.fresh_world)
    as (_ & Hhandles & _ & Hnext & _); [reflexivity|].
  split; [exact Hhandles|exact Hnext].
Defined.

(** ** Counting *)

Lemma foldr_add_concat (kss : list (list Z)) :
  foldr Z.add 0 (Py.len <$> kss) = Py.len (concat kss).
Proof.
  induction kss as [|ks kss IH]; csimpl; [done|].
  rewrite IH. unfold Py.len. rewrite length_app. lia.
Qed.

(** [__len__] of a dataset built by [__init__] is the number of keys the
    rank owns, all shards together; the cumulative table has one entry
    per shard and, within the range of its [int64] entries, its last
    entry is that number. *)
Theorem len_counts_owned_keys E src tr σ0 self σ1 :
  __init__ E src tr σ0 = (ok self, σ1) →
  __len__ self = Py.len (concat (_keys self)) ∧
  length (_keylen_cumulative self) = length (_keys self) ∧
  (__len__ self < 2 ^ 63 → _keys self ≠ [] →
   last (_keylen_cumulative self) = Some (__len__ self)).
Proof.
  intros Hinit. apply init_inv in Hinit as (Hself & _). unfold __len__.
  split; [|split].
  - rewrite (consistent_num_samples _ _ Hself), sum_foldr,
      (consistent_keylens _ _ Hself). apply foldr_add_concat.
  - rewrite (cumulative_length self σ1 Hself). apply (keylens_length self σ1 Hself).
  - intros Hbound Hne.
    pose proof (keylens_length self σ1 Hself) as Hlen.
    pose proof (cumulative_length self σ1 Hself) as Hclen.
    rewrite last_lookup, Hclen.
    destruct (length (_keylens self)) as [|n] eqn:Hn.
    { destruct (_keys self); [done|simpl in Hlen; lia]. }
    simpl. rewrite (cumulative_lookup self σ1 Hself Hbound n) by lia.
    f_equal. rewrite <- Hn. symmetry. apply (num_samples_offset self σ1 Hself).
Qed.

Lemma len_counts_owned_keys_witness :
  ∃ self σ1,
    __init__ Demo.single "data" None Demo.fresh_world = (ok self, σ1) ∧
    __len__ self = 8 ∧ last (_keylen_cumulative self) = Some 8.
Proof.
  eexists _, _. split; [reflexivity|].
  edestruct (len_counts_owned_keys Demo.single "data" None Demo.fresh_world)
    as (Hlen & _ & Hlast); [reflexivity|].
  split; [exact Hlen|]. apply Hlast; [reflexivity|discriminate].
Defined.

(** ** The order of global indices *)

(** Global indices enumerate the owned keys shard after shard, in the
    order of [db_paths], and within a shard in the order of its key
    list: a smaller index is located strictly before a larger one. *)
Theorem locate_increasing E src tr σ0 self σ1 i j :
  __init__ E src tr σ0 = (ok self, σ1) →
  num_samples self < 2 ^ 63 →
  0 ≤ i → i < j → j < num_samples self →
  ∃ a b, locate self i = ok a ∧ locate self j = ok b ∧ before a b.
Proof.
  intros Hinit Hbound Hi Hij Hj. apply init_inv in Hinit as (Hself & _).
  pose proof (keylens_nonneg self σ1 Hself) as Hpos.
  destruct (locate_inside self σ1 Hself Hbound i) as (s & ks & _ & Hl & _ & HS & Hel);
    [lia|].
  destruct (locate_inside self σ1 Hself Hbound j) as (s' & ks' & _ & Hl' & _ & HS' & Hel');
    [lia|].
  eexists _, _. split; [exact Hl|]. split; [exact Hl'|]. unfold before. simpl.
  destruct (Nat.lt_trichotomy s s') as [Hlt|[->|Hlt]].
  - left. lia.
  - right. split; [done|lia].
  - pose proof (offset_mono (_keylens self) (S s') s Hpos). lia.
Qed.

Lemma locate_increasing_witness :
  ∃ self σ1,
    __init__ Demo.single "data" None Demo.fresh_world = (ok self, σ1) ∧
    num_samples self < 2 ^ 63 ∧ 4 < 5 < num_samples self ∧
    ∃ a b, locate self 4 = ok a ∧ locate self 5 = ok b ∧ before a b.
Proof.
  eexists _, _. split; [reflexivity|]. split; [reflexivity|]. split; [done|].
  eapply (locate_increasing Demo.single "data" None Demo.fresh_world);
    [reflexivity|reflexivity|lia|lia|reflexivity].
Defined.

(** ** Keys of shared shards *)

Lemma range_elements (start stop step : Z) (l : list Z) (k : Z) :
  0 < step → Py.range start stop step = ok l → k ∈ l → start ≤ k < stop.
Proof.
  intros Hstep Hrange Hk. unfold Py.range in Hrange.
  rewrite decide_False in Hrange by lia. injection Hrange as <-.
  apply list_elem_of_fmap in Hk as (i & -> & Hi). apply elem_of_seqZ in Hi.
  unfold Py.range_len in Hi. rewrite decide_True in Hi by done.
  destruct (decide (start < stop)); [|lia].
  assert (i ≤ (stop - start - 1) `div` step) as Hle by lia.
  pose proof (Z.mul_div_le (stop - start - 1) step Hstep).
  assert (i * step ≤ (stop - start - 1) `div` step * step) by nia. nia.
Qed.

Lemma shared_keys_stride (w r n : Z) :
  1 ≤ w → 0 ≤ r < w →
  shared_keys w r (PyInt n) = ok ((λ i, r + i * w) <$> seqZ 0 (n `div` w)).
Proof.
  intros Hw Hr. unfold shared_keys, Py.mod_. rewrite decide_False by lia. simpl.
  unfold Py.range. rewrite decide_False by lia. do 2 f_equal.
  pose proof (Z.div_mod n w) as Hdm.
  replace (n - n `mod` w) with (w * (n `div` w)) by lia.
  destruct (decide (0 ≤ n `div` w)) as [Hq|Hq].
  - by rewrite range_len_stride.
  - assert (Py.range_len r (w * (n `div` w)) w = 0) as ->.
    { unfold Py.range_len. repeat case_decide; try lia; nia. }
    unfold seqZ. by replace (Z.to_nat (n `div` w)) with (Z.to_nat 0) by lia.
Qed.

(** The keys of a shared shard, for any world size [w >= 1] and declared
    length [n]: rank [r] owns [r, r + w, r + 2w, ...] below the trimmed
    length [n - n mod w], that is the keys [k] of that range with
    [k mod w = r].  Hence every rank owns the same number [n / w] of keys,
    no key has two owners, and exactly the keys from the trimmed length
    on have none. *)
Theorem shared_shard_partition (w n : Z) :
  1 ≤ w →
  ∀ r, 0 ≤ r < w →
    ∃ ks, shared_keys w r (PyInt n) = ok ks ∧
          Py.len ks = Z.max 0 (n `div` w) ∧
          (∀ i : nat, Z.of_nat i < n `div` w → ks !! i = Some (r + Z.of_nat i * w)) ∧
          (∀ k, k ∈ ks ↔ 0 ≤ k < n - n `mod` w ∧ k `mod` w = r).
Proof.
  intros Hw r Hr. eexists. split; [by apply shared_keys_stride|].
  pose proof (Z.div_mod n w) as Hdm.
  split; [|split].
  - unfold Py.len. rewrite length_fmap, length_seqZ. lia.
  - intros i Hi. rewrite list_lookup_fmap, lookup_seqZ_lt by done. simpl.
    f_equal; lia.
  - intros k. rewrite list_elem_of_fmap. setoid_rewrite elem_of_seqZ. split.
    + intros (i & -> & Hi). split; [nia|].
      rewrite Z.mod_add by lia. apply Z.mod_small. lia.
    + intros (Hk & Hmod). exists (k `div` w).
      pose proof (Z.div_mod k w) as Hk'. split; [lia|]. split.
      * apply Z.div_pos; lia.
      * apply Z.div_lt_upper_bound; lia.
Qed.

Lemma shared_shard_partition_witness :
  ∃ ks, shared_keys 3 1 (PyInt 10) = ok ks ∧ Py.len ks = 3 ∧
        (7 ∈ ks ↔ 0 ≤ 7 < 10 - 10 `mod` 3 ∧ 7 `mod` 3 = 1).
Proof.
  destruct (shared_shard_partition 3 10 ltac:(lia) 1 ltac:(lia))
    as (ks & Hks & Hlen & _ & Hin).
  exists ks. split; [exact Hks|]. split; [exact Hlen|apply Hin].
Defined.

(** ** Every file has a reader *)

(** For a world of [w >= 1] ranks and a listing of [n] files, the files
    shared are the same for every rank, namely the last [n mod w] of the
    listing; every rank opens [n / w + n mod w] files; and a file is in
    the listing exactly when it is shared or some rank reads it alone. *)
Theorem every_path_is_read (paths : list string) (w : Z) :
  1 ≤ w →
  ∃ shared,
    shared = drop (Z.to_nat (Py.len paths - Py.len paths `mod` w)) paths ∧
    Py.len shared = Py.len paths `mod` w ∧
    (∀ r, 0 ≤ r < w →
       ∃ mine, partition_paths w r paths = ok (mine, shared) ∧
               Py.len (mine ++ shared) = Py.len paths `div` w + Py.len paths `mod` w) ∧
    (∀ p, p ∈ paths ↔
          p ∈ shared ∨
          ∃ r mine, 0 ≤ r < w ∧ partition_paths w r paths = ok (mine, shared) ∧ p ∈ mine).
Proof.
  intros Hw. eexists. split; [done|].
  pose proof (num_full_stride paths w Hw) as Hnf.
  pose proof (num_full_bounds paths w Hw) as (Hrange & Hq & _).
  pose proof (Z.div_mod (Py.len paths) w) as Hdm.
  assert (Py.len (drop (Z.to_nat (Py.len paths - Py.len paths `mod` w)) paths)
          = Py.len paths `mod` w) as Hshared.
  { unfold Py.len in *. rewrite length_drop. lia. }
  split; [done|]. split.
  - intros r Hr.
    destruct (partition_paths_stride paths w Hw r Hr) as (mine & Hpart & Hlen & _).
    exists mine. split; [done|]. unfold Py.len in *. rewrite length_app. lia.
  - intros p. rewrite <- (take_drop (Z.to_nat (Py.len paths - Py.len paths `mod` w)) paths)
      at 1.
    rewrite elem_of_app, elem_of_take. split.
    + intros [(j & Hj & Hlt)|Hin]; [right|by left].
      assert (0 ≤ Z.of_nat j `mod` w < w) as Hmod by (apply Z.mod_pos_bound; lia).
      pose proof (Z.div_mod (Z.of_nat j) w) as Hjdm.
      assert (0 ≤ Z.of_nat j `div` w) as Hdiv by (apply Z.div_pos; lia).
      destruct (partition_paths_stride paths w Hw _ Hmod) as (mine & Hpart & _).
      exists (Z.of_nat j `mod` w), mine. split; [done|]. split; [done|].
      apply (elem_of_mine paths w Hw _ _ _ p Hmod Hpart).
      exists (Z.to_nat (Z.of_nat j `div` w)). rewrite Z2Nat.id by lia. split.
      * apply Z.div_lt_upper_bound; lia.
      * by replace (Z.to_nat (Z.of_nat j `mod` w + Z.of_nat j `div` w * w)) with j by lia.
    + intros [Hin|(r & mine & Hr & Hpart & Hin)]; [by right|left].
      apply (elem_of_mine paths w Hw r _ _ p Hr Hpart) in Hin as (i & Hi & Hl).
      eexists. split; [exact Hl|]. nia.
Qed.

Lemma every_path_is_read_witness :
  ∃ shared,
    Py.len shared = 1 ∧
    ∃ mine, partition_paths 3 2 ["a.lmdb"; "b.lmdb"; "c.lmdb"; "d.lmdb"] = ok (mine, shared).
Proof.
  destruct (every_path_is_read ["a.lmdb"; "b.lmdb"; "c.lmdb"; "d.lmdb"] 3 ltac:(lia))
    as (shared & _ & Hlen & Hall & _).
  exists shared. split; [exact Hlen|].
  destruct (Hall 2 ltac:(lia)) as (mine & Hpart & _). exists mine. exact Hpart.
Defined.

(** ** A single rank *)

Lemma partition_paths_single (paths : list string) :
  partition_paths 1 0 paths = ok (paths, []).
Proof.
  destruct (partition_paths_stride paths 1 ltac:(lia) 0 ltac:(lia))
    as (mine & Hpart & Hlen & Hlook).
  rewrite Hpart. rewrite Z.mod_1_r, Z.sub_0_r. unfold Py.len at 1.
  rewrite Nat2Z.id, drop_all. do 2 f_equal.
  rewrite Z.div_1_r in Hlen, Hlook. apply list_eq. intros i.
  destruct (decide (i < length paths)%nat) as [Hi|Hi].
  - rewrite Hlook by (unfold Py.len; lia). f_equal. lia.
  - rewrite !(proj2 (lookup_ge_None _ _)); [done|lia|]. unfold Py.len in Hlen. lia.
Qed.

(** With a world of one rank nothing is shared and nothing is trimmed:
    the dataset opens every file of the listing, in the order of the
    listing, and owns every key [0 .. declared - 1] of each. *)
Theorem single_rank_reads_everything E src tr σ0 self σ1 :
  world_size E = 1 → rank E = 0 →
  __init__ E src tr σ0 = (ok self, σ1) →
  db_paths self = sorted_glob E src ∧
  ∀ (i : nat) (p : string), sorted_glob E src !! i = Some p →
    ∃ db b declared,
      lmdb_files E !! p = Some db ∧ db !! "length" = Some b ∧
      pickle_loads E b = ok (PyInt declared) ∧
      _keys self !! i = Some (seqZ 0 declared).
Proof.
  intros Hw Hr Hinit.
  apply init_inv in Hinit
    as (_ & _ & _ & full & shared & kss1 & kss2 & es1 & es2 & Hpart & Hpaths & Hkeys & _ & H1 & H2).
  rewrite Hw, Hr, partition_paths_single in Hpart. injection Hpart as <- <-.
  rewrite app_nil_r in Hpaths. split; [done|].
  intros i p Hp.
  destruct (Forall3_lookup_l _ _ _ _ _ _ H1 Hp) as (ks & e & Hks & _ & Ho).
  destruct Ho as (db & b & v & Hdb & _ & Hb & Hv & Hkeys_of).
  destruct (full_keys_inv _ _ Hkeys_of) as [declared ->].
  rewrite full_keys_range in Hkeys_of. injection Hkeys_of as <-.
  exists db, b, declared. do 3 (split; [done|]).
  rewrite Hkeys. by apply lookup_app_l_Some.
Qed.

Lemma single_rank_reads_everything_witness :
  ∃ self σ1,
    __init__ Demo.single "data" None Demo.fresh_world = (ok self, σ1) ∧
    db_paths self = ["a.lmdb"; "b.lmdb"].
Proof.
  eexists _, _. split; [reflexivity|].
  edestruct (single_rank_reads_everything Demo.single "data" None Demo.fresh_world)
    as (Hpaths & _); [reflexivity|reflexivity|reflexivity|exact Hpaths].
Defined.

(** ** Keys and records *)

(** Each shard of a built dataset, with its path, key list and
    environment, was opened by one of the two loops. *)
Lemma init_opened E src tr σ0 self σ1 :
  __init__ E src tr σ0 = (ok self, σ1) →
  Forall3 (λ p ks e, opened E full_keys p ks e ∨
                     opened E (shared_keys (world_size E) (rank E)) p ks e)
          (db_paths self) (_keys self) (envs self).
Proof.
  intros Hinit.
  apply init_inv in Hinit
    as (_ & _ & _ & full & shared & kss1 & kss2 & es1 & es2 & _ & -> & -> & -> & H1 & H2).
  apply Forall3_app; eapply Forall3_impl; eauto.
Qed.

Lemma opened_keys_below E p ks e k :
  1 ≤ world_size E → 0 ≤ rank E →
  opened E full_keys p ks e ∨ opened E (shared_keys (world_size E) (rank E)) p ks e →
  k ∈ ks →
  ∃ b declared, env_db e !! "length" = Some b ∧ pickle_loads E b = ok (PyInt declared) ∧
                lmdb_files E !! p = Some (env_db e) ∧ 0 ≤ k < declared.
Proof.
  intros Hw Hr [Ho|Ho] Hk; destruct Ho as (db & b & v & Hdb & <- & Hb & Hv & Hks).
  - destruct (full_keys_inv _ _ Hks) as [declared ->].
    rewrite full_keys_range in Hks. injection Hks as <-.
    apply elem_of_seqZ in Hk. exists b, declared. done.
  - destruct (shared_keys_inv _ _ _ _ Hks) as (declared & -> & _).
    unfold shared_keys, Py.mod_ in Hks. rewrite decide_False in Hks by lia.
    simpl in Hks. apply (range_elements _ _ _ _ k) in Hks; [|lia|done].
    pose proof (Z.mod_pos_bound declared (world_size E)).
    exists b, declared. split; [done|]. split; [done|]. split; [done|]. lia.
Qed.

(** In a dataset built for a world size of at least 1 and a rank of at
    least 0, every key the rank owns in a shard lies in
    [[0, declared)], [declared] being the unpickled ["length"] entry of
    that shard's file: no access asks a store for a key it does not
    declare. *)
Theorem owned_keys_below_declared_length E src tr σ0 self σ1 :
  1 ≤ world_size E → 0 ≤ rank E →
  __init__ E src tr σ0 = (ok self, σ1) →
  ∀ (i : nat) p ks k,
    db_paths self !! i = Some p → _keys self !! i = Some ks → k ∈ ks →
    ∃ db b declared,
      lmdb_files E !! p = Some db ∧ db !! "length" = Some b ∧
      pickle_loads E b = ok (PyInt declared) ∧ 0 ≤ k < declared.
Proof.
  intros Hw Hr Hinit i p ks k Hp Hks Hk.
  pose proof (init_opened _ _ _ _ _ _ Hinit) as Hall.
  destruct (Forall3_lookup_l _ _ _ _ _ _ Hall Hp) as (ks' & e & Hks' & He & Ho).
  assert (ks' = ks) as -> by congruence.
  destruct (opened_keys_below E p ks e k Hw Hr Ho Hk) as (b & declared & Hb & Hv & Hdb & Hrange).
  eauto 10.
Qed.

Lemma owned_keys_below_declared_length_witness :
  ∃ self σ1,
    __init__ (Demo.short_shared 1) "data" None Demo.fresh_world = (ok self, σ1) ∧
    db_paths self !! 0%nat = Some "b.lmdb" ∧ _keys self !! 0%nat = Some [0; 1; 2] ∧
    ∃ db b declared,
      lmdb_files (Demo.short_shared 1) !! "b.lmdb" = Some db ∧
      db !! "length" = Some b ∧
      pickle_loads (Demo.short_shared 1) b = ok (PyInt declared) ∧ 0 ≤ 2 < declared.
Proof.
  eexists _, _. split; [reflexivity|]. split; [reflexivity|]. split; [reflexivity|].
  eapply (owned_keys_below_declared_length (Demo.short_shared 1) "data" None
            Demo.fresh_world _ _ ltac:(simpl; lia) ltac:(simpl; lia) eq_refl 0%nat
            "b.lmdb" [0; 1; 2] 2); [reflexivity|reflexivity|].
  apply elem_of_cons. right. apply elem_of_cons. right. apply elem_of_cons. by left.
Defined.

(** When the databases a built dataset reads keep their promise (a
    decodable record under each key below the declared length), every
    index of the range yields a record: the record stored under the located key,
    unpickled, passed through the transform, with [id] set to the
    located pair. *)
Theorem getitem_on_well_formed_shards E src tr σ0 self σ1 idx :
  1 ≤ world_size E → 0 ≤ rank E →
  __init__ E src tr σ0 = (ok self, σ1) →
  (∀ p db, p ∈ db_paths self → lmdb_files E !! p = Some db → well_formed E tr db) →
  num_samples self < 2 ^ 63 →
  0 ≤ idx < num_samples self →
  ∃ db_idx el_idx e ks k b v d,
    locate self idx = ok (db_idx, el_idx) ∧
    Py.index (envs self) db_idx = ok e ∧
    Py.index (_keys self) db_idx = ok ks ∧ Py.index ks el_idx = ok k ∧
    txn_get e (Py.str k) = Some b ∧ pickle_loads E b = ok v ∧
    apply_transform tr v = ok (PyData d) ∧
    __getitem__ E self idx σ1 =
      (ok (PyData (<["id" := AStr (record_id db_idx el_idx)]> d)), σ1).
Proof.
  intros Hw Hr Hinit Hwf Hbound Hidx.
  pose proof (init_opened _ _ _ _ _ _ Hinit) as Hall.
  apply init_inv in Hinit as (Hself & Htr & _).
  destruct (getitem_inside E self σ1 idx Hself Hbound Hidx)
    as (s & e & ks & k & Hloc & He & Hks & Hel & Hk & Hget).
  destruct (Forall3_lookup_m _ _ _ _ _ _ Hall Hks) as (p & e' & Hp & He' & Ho).
  assert (e' = e) as -> by congruence.
  destruct (opened_keys_below E p ks e k Hw Hr Ho) as (b & declared & Hb & Hv & Hdb & Hrange).
  { by eapply list_elem_of_lookup_2. }
  destruct (Hwf p (env_db e) (list_elem_of_lookup_2 _ _ _ Hp) Hdb b declared Hb Hv k Hrange)
    as (b' & v & d & Hb' & Hv' & Hd).
  exists (Z.of_nat s), (idx - offset (_keylens self) s), e, ks, k, b', v, d.
  split; [exact Hloc|].
  split; [apply index_lookup; [lia|by rewrite Nat2Z.id]|].
  split; [apply index_lookup; [lia|by rewrite Nat2Z.id]|].
  split; [apply index_lookup; [lia|done]|].
  split; [done|]. split; [done|]. split; [done|].
  rewrite <- Htr in Hd. rewrite Hget. unfold txn_get. rewrite Hb'.
  by rewrite (decode_readable E self _ _ b' v d Hv' Hd).
Qed.

Lemma getitem_on_well_formed_shards_witness :
  ∃ self σ1,
    __init__ Demo.single "data" None Demo.fresh_world = (ok self, σ1) ∧
    num_samples self < 2 ^ 63 ∧ 0 ≤ 6 < num_samples self ∧
    ∃ d, __getitem__ Demo.single self 6 σ1 = (ok (PyData d), σ1).
Proof.
  eexists _, _. split; [reflexivity|]. split; [reflexivity|]. split; [done|].
  edestruct (getitem_on_well_formed_shards Demo.single "data" None Demo.fresh_world)
    with (idx := 6)
    as (db_idx & el_idx & e & ks & k & b & v & d & _ & _ & _ & _ & _ & _ & _ & Hget);
    [simpl; lia|simpl; lia|reflexivity| |reflexivity|done|eexists; exact Hget].
  intros p db Hp Hdb b declared Hb Hv k Hk.
  vm_compute in Hp.
  apply elem_of_cons in Hp as [->|Hp]; [|apply elem_of_cons in Hp as [->|Hp]];
    [| |by apply elem_of_nil in Hp];
    vm_compute in Hdb; injection Hdb as <-;
    vm_compute in Hb; injection Hb as <-;
    vm_compute in Hv; injection Hv as <-.
  - assert (k = 0 ∨ k = 1 ∨ k = 2 ∨ k = 3 ∨ k = 4) as [->|[->|[->|[->| ->]]]] by lia;
      eexists _, _, _; (split; [vm_compute; reflexivity|split; reflexivity]).
  - assert (k = 0 ∨ k = 1 ∨ k = 2) as [->|[->| ->]] by lia;
      eexists _, _, _; (split; [vm_compute; reflexivity|split; reflexivity]).
Defined.

(** How an access inside the range fails.  With [k] the located key and
    [e] the environment of the located shard: a key absent from the
    store ends in the [TypeError] of [pickle.loads(None)]; an exception
    of [pickle.loads] or of the transform comes out unchanged; and an
    object that takes no attribute ends in [AttributeError].  In each
    case the world is untouched. *)
Theorem getitem_failures E src tr σ0 self σ1 idx :
  __init__ E src tr σ0 = (ok self, σ1) →
  num_samples self < 2 ^ 63 →
  0 ≤ idx < num_samples self →
  ∃ db_idx el_idx e ks k,
    locate self idx = ok (db_idx, el_idx) ∧
    Py.index (envs self) db_idx = ok e ∧
    Py.index (_keys self) db_idx = ok ks ∧ Py.index ks el_idx = ok k ∧
    (txn_get e (Py.str k) = None →
       __getitem__ E self idx σ1 = (raise TypeError, σ1)) ∧
    (∀ b x, txn_get e (Py.str k) = Some b → pickle_loads E b = raise x →
       __getitem__ E self idx σ1 = (raise x, σ1)) ∧
    (∀ b v x, txn_get e (Py.str k) = Some b → pickle_loads E b = ok v →
       apply_transform tr v = raise x →
       __getitem__ E self idx σ1 = (raise x, σ1)) ∧
    (∀ b v o, txn_get e (Py.str k) = Some b → pickle_loads E b = ok v →
       apply_transform tr v = ok o → (∀ d, o ≠ PyData d) →
       __getitem__ E self idx σ1 = (raise AttributeError, σ1)).
Proof.
  intros Hinit Hbound Hidx. apply init_inv in Hinit as (Hself & Htr & _).
  destruct (getitem_inside E self σ1 idx Hself Hbound Hidx)
    as (s & e & ks & k & Hloc & He & Hks & Hel & Hk & Hget).
  exists (Z.of_nat s), (idx - offset (_keylens self) s), e, ks, k.
  split; [done|].
  split; [apply index_lookup; [lia|by rewrite Nat2Z.id]|].
  split; [apply index_lookup; [lia|by rewrite Nat2Z.id]|].
  split; [apply index_lookup; [lia|done]|].
  rewrite Hget. unfold decode. rewrite Htr. split; [|split; [|split]].
  - by intros ->.
  - intros b x -> Hx. simpl. by rewrite Hx.
  - intros b v x -> Hv Hx. simpl. rewrite Hv. simpl. by rewrite Hx.
  - intros b v o -> Hv Ho Hnot. simpl. rewrite Hv. simpl. rewrite Ho. simpl.
    destruct o as [z|d|]; [done| |done]. by destruct (Hnot d).
Qed.

Lemma getitem_failures_witness :
  ∃ self σ1,
    __init__ Faulty.deployment "data" None Demo.fresh_world = (ok self, σ1) ∧
    num_samples self < 2 ^ 63 ∧ 0 ≤ 4 < num_samples self ∧
    __getitem__ Faulty.deployment self 4 σ1 = (raise TypeError, σ1).
Proof.
  eexists _, _. split; [reflexivity|]. split; [reflexivity|]. split; [done|].
  edestruct (getitem_failures Faulty.deployment "data" None Demo.fresh_world)
    with (idx := 4)
    as (db_idx & el_idx & e & ks & k & Hloc & He & Hks & Hk & Hmissing & _);
    [reflexivity|reflexivity|done|].
  vm_compute in Hloc. injection Hloc as <- <-.
  vm_compute in He. injection He as <-.
  vm_compute in Hks. injection Hks as <-.
  vm_compute in Hk. injection Hk as <-.
  apply Hmissing. vm_compute. reflexivity.
Defined.

(** ** Record identifiers *)

Lemma pretty_N_char_not_underscore (x : N) : pretty_N_char x ≠ underscore.
Proof. unfold pretty_N_char. by repeat case_match. Qed.

Lemma pretty_N_go_no_underscore (x : N) (s : string) :
  occurs underscore s = false → occurs underscore (pretty_N_go x s) = false.
Proof.
  revert s. induction (N.lt_wf_0 x) as [x _ IH]; intros s Hs.
  assert (x = 0 ∨ 0 < x)%N as [->|Hx] by lia.
  - by rewrite pretty_N_go_0.
  - rewrite pretty_N_go_step by done. apply IH; [by apply N.div_lt|].
    simpl. rewrite decide_False by apply pretty_N_char_not_underscore. done.
Qed.

Lemma pretty_N_no_underscore (x : N) : occurs underscore (pretty x) = false.
Proof.
  unfold pretty, pretty_N. case_decide; [done|]. by apply pretty_N_go_no_underscore.
Qed.

Lemma str_no_underscore (z : Z) : occurs underscore (Py.str z) = false.
Proof.
  unfold Py.str, pretty, pretty_Z. destruct z as [|p|p]; [done|..].
  - apply pretty_N_no_underscore.
  - simpl. apply pretty_N_no_underscore.
Qed.

Lemma split_at_underscore (s1 s2 t1 t2 : string) :
  occurs underscore s1 = false → occurs underscore s2 = false →
  s1 +:+ String underscore t1 = s2 +:+ String underscore t2 →
  s1 = s2 ∧ t1 = t2.
Proof.
  revert s2. induction s1 as [|c s1 IH]; intros [|c' s2] H1 H2 Heq; simpl in *.
  - by injection Heq as ->.
  - injection Heq as <- _. by rewrite decide_True in H2.
  - injection Heq as -> _. by rewrite decide_True in H1.
  - injection Heq as -> Heq. case_decide; [done|].
    destruct (IH s2 H1 H2 Heq) as [-> ->]. done.
Qed.

Lemma record_id_inj (a b a' b' : Z) :
  record_id a b = record_id a' b' → a = a' ∧ b = b'.
Proof.
  unfold record_id. intros Heq.
  apply split_at_underscore in Heq as [Ha Hb]; [|apply str_no_underscore..].
  split; by apply (inj pretty).
Qed.

(** The identifier stamped on a record names its place: two located
    pairs with the same identifier are the same pair, so within a built
    dataset two different indices of the range never yield the same
    [id]. *)
Theorem record_ids_distinct E src tr σ0 self σ1 i j :
  __init__ E src tr σ0 = (ok self, σ1) →
  num_samples self < 2 ^ 63 →
  0 ≤ i < num_samples self → 0 ≤ j < num_samples self → i ≠ j →
  ∃ a b, locate self i = ok a ∧ locate self j = ok b ∧
         record_id a.1 a.2 ≠ record_id b.1 b.2.
Proof.
  intros Hinit Hbound Hi Hj Hne. apply init_inv in Hinit as (Hself & _).
  destruct (locate_inside self σ1 Hself Hbound i Hi) as (s & ks & _ & Hl & _).
  destruct (locate_inside self σ1 Hself Hbound j Hj) as (s' & ks' & _ & Hl' & _).
  eexists _, _. split; [exact Hl|]. split; [exact Hl'|]. simpl.
  intros [Hs Ho]%record_id_inj. apply Nat2Z.inj in Hs as ->. lia.
Qed.

Lemma record_ids_distinct_witness :
  ∃ self σ1,
    __init__ Demo.single "data" None Demo.fresh_world = (ok self, σ1) ∧
    num_samples self < 2 ^ 63 ∧
    ∃ a b, locate self 0 = ok a ∧ locate self 6 = ok b ∧
           record_id a.1 a.2 ≠ record_id b.1 b.2.
Proof.
  eexists _, _. split; [reflexivity|]. split; [reflexivity|].
  eapply (record_ids_distinct Demo.single "data" None Demo.fresh_world);
    [reflexivity|reflexivity|done|done|lia].
Defined.

(** ** Collation: the first record without a second row *)

(** With [otf_graph] false, the first record on which
    [data.edge_index[1, :]] raises decides the outcome, whatever the
    records after it hold: on [NotImplementedError] the message is
    printed and the batch is returned without [neighbors]; any other
    exception, such as the [IndexError] of a matrix with a single row,
    leaves the collater uncaught, with nothing printed. *)
Theorem collater_first_failure E good d rest batch e σ :
  from_data_list E (good ++ d :: rest) = ok batch →
  (∀ d', d' ∈ good → ∃ row, second_row E d' row) →
  no_second_row E d e →
  data_list_collater E (good ++ d :: rest) false σ =
    if is_NotImplementedError e
    then (ok batch, printed no_edge_index_message σ)
    else (raise e, σ).
Proof.
  intros Hbatch Hgood Hd. unfold data_list_collater.
  erewrite bind_ok by (unfold lift; by rewrite Hbatch). simpl.
  assert (for_each (count_neighbors E) (good ++ d :: rest) [] σ = (raise e, σ)) as Hrun.
  { rewrite for_each_app.
    destruct (count_all_neighbors E good [] σ Hgood) as (counts & Hcounts & _).
    erewrite bind_ok by exact Hcounts. simpl.
    apply bind_raise. by apply count_neighbors_raises. }
  unfold try_except. erewrite bind_raise by exact Hrun.
  unfold raise. by destruct (is_NotImplementedError e).
Qed.

Lemma collater_first_failure_witness :
  data_list_collater Demo.unimplemented
    [Demo.graph [[1; 2]; [3; 4]]; Demo.pending; Demo.graph [[5]]] false Demo.fresh_world =
    (ok {[ "num_graphs" := AInt 3 ]}, printed no_edge_index_message Demo.fresh_world) ∧
  data_list_collater Demo.single
    [Demo.graph [[1; 2]; [3; 4]]; Demo.graph [[5]]; Demo.graph [[6]; [7]]] false
    Demo.fresh_world =
    (raise IndexError, Demo.fresh_world).
Proof.
  split.
  - apply (collater_first_failure Demo.unimplemented [Demo.graph [[1; 2]; [3; 4]]]
             Demo.pending [Demo.graph [[5]]] {[ "num_graphs" := AInt 3 ]}
             NotImplementedError Demo.fresh_world); [reflexivity| |left; reflexivity].
    intros d Hd. apply elem_of_cons in Hd as [->|Hd]; [|by apply elem_of_nil in Hd].
    exists [3; 4]. eexists. split; reflexivity.
  - apply (collater_first_failure Demo.single [Demo.graph [[1; 2]; [3; 4]]]
             (Demo.graph [[5]]) [Demo.graph [[6]; [7]]] {[ "num_graphs" := AInt 3 ]}
             IndexError Demo.fresh_world); [reflexivity| |right].
    + intros d Hd. apply elem_of_cons in Hd as [->|Hd]; [|by apply elem_of_nil in Hd].
      exists [3; 4]. eexists. split; reflexivity.
    + exists [[5]]. split; [reflexivity|]. split; reflexivity.
Defined.

(** ** The index space is the concatenation of the key lists *)

Lemma concat_lookup_offset (kss : list (list Z)) (s : nat) (ks : list Z) (o : Z) :
  kss !! s = Some ks → 0 ≤ o < Py.len ks →
  concat kss !! Z.to_nat (offset (Py.len <$> kss) s + o) = ks !! Z.to_nat o.
Proof.
  revert s. induction kss as [|ks' kss IH]; intros s Hs Ho; [done|].
  destruct s as [|s]; simpl in Hs.
  - injection Hs as ->. rewrite offset_0, Z.add_0_l. simpl.
    apply lookup_app_l. unfold Py.len in Ho. lia.
  - assert (offset (Py.len <$> ks' :: kss) (S s)
            = Py.len ks' + offset (Py.len <$> kss) s) as -> by done.
    assert (0 ≤ offset (Py.len <$> kss) s) as H0.
    { apply offset_nonneg, Forall_fmap, Forall_true. intros l. apply len_nonneg. }
    rewrite <- (IH s Hs Ho). revert H0.
    generalize (offset (Py.len <$> kss) s). intros off Hoff. simpl.
    rewrite lookup_app_r by (unfold Py.len; lia).
    f_equal. unfold Py.len. lia.
Qed.

(** Reading a built dataset at the indices of its range, in increasing
    order, visits the keys of [_keys] flattened: the key fetched for
    [idx] is the [idx]-th element of the concatenation of the key
    lists. *)
Theorem getitem_reads_concat E src tr σ0 self σ1 idx :
  __init__ E src tr σ0 = (ok self, σ1) →
  num_samples self < 2 ^ 63 →
  0 ≤ idx < num_samples self →
  ∃ db_idx el_idx ks k,
    locate self idx = ok (db_idx, el_idx) ∧
    Py.index (_keys self) db_idx = ok ks ∧ Py.index ks el_idx = ok k ∧
    Py.index (concat (_keys self)) idx = ok k.
Proof.
  intros Hinit Hbound Hidx. apply init_inv in Hinit as (Hself & _).
  destruct (locate_inside self σ1 Hself Hbound idx Hidx)
    as (s & ks & _ & Hloc & Hks & _ & Hel).
  destruct (index_inside ks _ Hel) as (k & Hk & Hindex).
  exists (Z.of_nat s), (idx - offset (_keylens self) s), ks, k.
  split; [done|]. split; [apply index_lookup; [lia|by rewrite Nat2Z.id]|].
  split; [done|]. apply index_lookup; [lia|].
  rewrite <- Hk, <- (concat_lookup_offset (_keys self) s ks _ Hks Hel).
  rewrite <- (consistent_keylens _ _ Hself). f_equal. lia.
Qed.

Lemma getitem_reads_concat_witness :
  ∃ self σ1,
    __init__ Demo.single "data" None Demo.fresh_world = (ok self, σ1) ∧
    num_samples self < 2 ^ 63 ∧ 0 ≤ 6 < num_samples self ∧
    ∃ k, Py.index (concat (_keys self)) 6 = ok k.
Proof.
  eexists _, _. split; [reflexivity|]. split; [reflexivity|]. split; [done|].
  edestruct (getitem_reads_concat Demo.single "data" None Demo.fresh_world) with (idx := 6)
    as (db_idx & el_idx & ks & k & _ & _ & _ & Hk); [reflexivity|reflexivity|done|].
  exists k. exact Hk.
Defined.
